(** * RSSky: cache identity, artifact store and resilient summarisation

    A shallow embedding of the cache/identity layer and of the retrying
    artifact-production pipeline of RSSky:

    - [rssky/utils/helpers.py]      : [safe_filename]
    - [rssky/core/cache_manager.py] : [CacheManager]
    - [rssky/core/ai_processor.py]  : [AIProcessor]

    Conventions of the embedding.

    - A Python [str] is a list of Unicode code points ([str := list N]);
      ASCII literals of the source are written [u "..."].
    - Python dictionaries decoded from JSON are association lists in
      insertion order ([JObj]); feed entries are dictionaries whose fields
      are strings.
    - Functions that may raise return [res]; functions that read or change
      the cache directory, the log or the upstream service thread a
      [World] explicitly.
    - Timestamps (Python floats) are rationals.
    - Functions of libraries that are not part of the repository
      (unicodedata, re's character classes, demjson3, json, dateutil,
      float()) are fields of the classes [UnicodeDB] and [PyLib]; the
      development is generic in them, and reference instances are given so
      that the definitions can be run. *)

From Stdlib Require Import ZArith NArith QArith Lqa List String Ascii Bool Lia.
From stdpp Require Import base option list strings gmap.

Local Open Scope N_scope.

(** ** Python strings *)

Module PyStr.

Definition str := list N.

(** An ASCII literal of the source as a [str]. *)
Definition u (s : string) : str :=
  map (fun a : ascii => N_of_ascii a) (list_ascii_of_string s).

Definition chr (a : ascii) : N := N_of_ascii a.

Definition str_eqb (a b : str) : bool := bool_decide (a = b).

(** [prefix_at p s]: [s.startswith(p)]. *)
Fixpoint prefix_at (p s : str) : bool :=
  match p, s with
  | [], _ => true
  | _ :: _, [] => false
  | x :: p', y :: s' => N.eqb x y && prefix_at p' s'
  end.

(** [sub in s] for a non-empty or empty needle. *)
Fixpoint contains (sub s : str) : bool :=
  prefix_at sub s ||
  match s with
  | [] => false
  | _ :: s' => contains sub s'
  end.

(** [s.find(c)] for a one-character needle: [None] stands for [-1]. *)
Fixpoint find (c : N) (s : str) : option nat :=
  match s with
  | [] => None
  | x :: s' => if N.eqb x c then Some 0%nat else S <$> find c s'
  end.

(** [s.rfind(c)] for a one-character needle. *)
Fixpoint rfind (c : N) (s : str) : option nat :=
  match s with
  | [] => None
  | x :: s' =>
      match rfind c s' with
      | Some i => Some (S i)
      | None => if N.eqb x c then Some 0%nat else None
      end
  end.

(** [s[a:b]] for non-negative indices. *)
Definition slice (a b : nat) (s : str) : str := take (b - a) (drop a s).

(** [s.split(c)[-1]]: the part after the last occurrence of [c]. *)
Definition after_last (c : N) (s : str) : str :=
  match rfind c s with
  | Some i => drop (S i) s
  | None => s
  end.

(** [s.replace(old, new)] for a non-empty [old]: occurrences are replaced
    from left to right without overlap.  [skip] counts the characters of a
    matched occurrence that are still to be dropped. *)
Fixpoint replace_from (skip : nat) (old new s : str) : str :=
  match s with
  | [] => []
  | c :: s' =>
      match skip with
      | S k => replace_from k old new s'
      | O =>
          if prefix_at old s
          then new ++ replace_from (length old - 1) old new s'
          else c :: replace_from 0 old new s'
      end
  end.

Definition replace (old new s : str) : str := replace_from 0 old new s.

(** [str.isspace] on one character. *)
Definition isspace (c : N) : bool :=
  (9 <=? c) && (c <=? 13) || (28 <=? c) && (c <=? 32) ||
  (c =? 0x85) || (c =? 0xA0) || (c =? 0x1680) ||
  (0x2000 <=? c) && (c <=? 0x200A) || (c =? 0x2028) || (c =? 0x2029) ||
  (c =? 0x202F) || (c =? 0x205F) || (c =? 0x3000).

Fixpoint lstrip_by (p : N -> bool) (s : str) : str :=
  match s with
  | [] => []
  | c :: s' => if p c then lstrip_by p s' else s
  end.

Definition rstrip_by (p : N -> bool) (s : str) : str :=
  rev (lstrip_by p (rev s)).

(** [s.strip(chars)] with the set of stripped characters given by [p]. *)
Definition strip_by (p : N -> bool) (s : str) : str :=
  rstrip_by p (lstrip_by p s).

(** [s.strip()]. *)
Definition strip (s : str) : str := strip_by isspace s.

(** [s.encode('utf-8')]. *)
Definition utf8_char (c : N) : list N :=
  if c <? 0x80 then [c]
  else if c <? 0x800 then
    [N.lor 0xC0 (N.shiftr c 6); N.lor 0x80 (N.land c 0x3F)]
  else if c <? 0x10000 then
    [N.lor 0xE0 (N.shiftr c 12);
     N.lor 0x80 (N.land (N.shiftr c 6) 0x3F);
     N.lor 0x80 (N.land c 0x3F)]
  else
    [N.lor 0xF0 (N.shiftr c 18);
     N.lor 0x80 (N.land (N.shiftr c 12) 0x3F);
     N.lor 0x80 (N.land (N.shiftr c 6) 0x3F);
     N.lor 0x80 (N.land c 0x3F)].

Definition encode_utf8 (s : str) : list N := concat (map utf8_char s).

End PyStr.

Export PyStr.

(** ** hashlib.sha1 *)

Module Sha1.

Definition w32 (x : N) : N := x mod 2 ^ 32.

Definition rotl (n x : N) : N :=
  N.lor (w32 (N.shiftl x n)) (N.shiftr x (32 - n)).

Definition add32 (a b : N) : N := w32 (a + b).

Definition not32 (x : N) : N := N.lxor x 0xFFFFFFFF.

(** The message followed by the bit 1, zeros, and its length in bits. *)
Definition pad (msg : list N) : list N :=
  let len := length msg in
  let k := ((64 - (len + 9) mod 64) mod 64)%nat in
  let bits := N.of_nat len * 8 in
  msg ++ [0x80] ++ repeat 0 k ++
  map (fun i => N.shiftr bits (8 * i) mod 256) [7; 6; 5; 4; 3; 2; 1; 0].

Fixpoint chunks (fuel n : nat) (l : list N) : list (list N) :=
  match fuel with
  | O => []
  | S fuel' =>
      match l with
      | [] => []
      | _ => take n l :: chunks fuel' n (drop n l)
      end
  end.

Definition be_word (bs : list N) : N :=
  fold_left (fun acc b => acc * 256 + b) bs 0.

(** The 80-word message schedule, most recent word first. *)
Fixpoint schedule (n : nat) (rw : list N) : list N :=
  match n with
  | O => rw
  | S n' =>
      let x := N.lxor (N.lxor (nth 2 rw 0) (nth 7 rw 0))
                      (N.lxor (nth 13 rw 0) (nth 15 rw 0)) in
      schedule n' (rotl 1 x :: rw)
  end.

Record regs := Regs { ra : N; rb : N; rc : N; rd : N; re : N }.

Definition round (s : regs) (iw : nat * N) : regs :=
  let '(i, w) := iw in
  let '(Regs a b c d e) := s in
  let '(f, k) :=
    if (i <? 20)%nat then
      (N.lor (N.land b c) (N.land (not32 b) d), 0x5A827999)
    else if (i <? 40)%nat then
      (N.lxor (N.lxor b c) d, 0x6ED9EBA1)
    else if (i <? 60)%nat then
      (N.lor (N.lor (N.land b c) (N.land b d)) (N.land c d), 0x8F1BBCDC)
    else
      (N.lxor (N.lxor b c) d, 0xCA62C1D6) in
  let t := add32 (add32 (add32 (add32 (rotl 5 a) f) e) k) w in
  Regs t a (rotl 30 b) c d.

Definition compress (h : regs) (block : list N) : regs :=
  let w16 := map be_word (chunks 16 4 block) in
  let w := rev (schedule 64 (rev w16)) in
  let s := fold_left round (combine (seq 0 80) w) h in
  Regs (add32 (ra h) (ra s)) (add32 (rb h) (rb s)) (add32 (rc h) (rc s))
       (add32 (rd h) (rd s)) (add32 (re h) (re s)).

Definition init : regs :=
  Regs 0x67452301 0xEFCDAB89 0x98BADCFE 0x10325476 0xC3D2E1F0.

Definition hex_digit (d : N) : N :=
  if d <? 10 then 48 + d else 87 + d.

Definition hex_word (w : N) : str :=
  map (fun i => hex_digit (N.shiftr w (4 * i) mod 16)) [7; 6; 5; 4; 3; 2; 1; 0].

(** [hashlib.sha1(bytes).hexdigest()]. *)
Definition hexdigest (msg : list N) : str :=
  let p := pad msg in
  let h := fold_left compress (chunks (length p) 64 p) init in
  hex_word (ra h) ++ hex_word (rb h) ++ hex_word (rc h) ++
  hex_word (rd h) ++ hex_word (re h).

End Sha1.

(** [hashlib.sha1(s.encode('utf-8')).hexdigest()[:8]]. *)
Definition sha1_hex (s : str) : str := Sha1.hexdigest (encode_utf8 s).
Definition sha1_8 (s : str) : str := take 8 (sha1_hex s).

(** ** Unicode tables used by [safe_filename] *)

(** [unicodedata.normalize('NFKD', _)] and the class [\w] of [re] (for a
    [str] pattern: every alphanumeric character of the Unicode database
    and the underscore) are given by the interpreter's Unicode database.
    On ASCII text normalisation is the identity and [\w] is
    [[A-Za-z0-9_]]. *)

Definition ascii_alnum (c : N) : bool :=
  (48 <=? c) && (c <=? 57) || (65 <=? c) && (c <=? 90) ||
  (97 <=? c) && (c <=? 122).

Definition ascii_word (c : N) : bool := ascii_alnum c || (c =? 95).

Definition is_ascii (s : str) : Prop := Forall (fun c => c < 128) s.

Class UnicodeDB := {
  nfkd : str -> str;
  word_char : N -> bool;
  nfkd_ascii : forall s, is_ascii s -> nfkd s = s;
  word_char_ascii : forall c, c < 128 -> word_char c = ascii_word c
}.

(** ** rssky/utils/helpers.py *)

Section Helpers.
Context `{UnicodeDB}.

Definition underscore : N := 95.
Definition hyphen : N := 45.
Definition period : N := 46.

(** The characters that [[^\w\-\.]] does not match. *)
Definition kept_char (c : N) : bool :=
  word_char c || (c =? hyphen) || (c =? period).

(** [re.sub(r'[^\w\-\.]', '_', text)]. *)
Definition sub_unsafe (text : str) : str :=
  map (fun c => if kept_char c then c else underscore) text.

(** Length of the longest match of [_*] at the head of the text. *)
Fixpoint run_length (s : str) : nat :=
  match s with
  | c :: s' => if c =? underscore then S (run_length s') else O
  | [] => O
  end.

(** [re.sub(r'_{2,}', '_', text)]: scanning from the left, a greedy match
    of two or more underscores is replaced by one underscore and the scan
    resumes after the match.  [skip] counts the characters of the current
    match that are still to be consumed. *)
Fixpoint sub_runs_from (skip : nat) (s : str) : str :=
  match s with
  | [] => []
  | c :: s' =>
      match skip with
      | S k => sub_runs_from k s'
      | O =>
          let n := run_length s in
          if (2 <=? n)%nat then underscore :: sub_runs_from (n - 1) s'
          else c :: sub_runs_from 0 s'
      end
  end.

Definition sub_runs (s : str) : str := sub_runs_from 0 s.

Definition is_underscore (c : N) : bool := c =? underscore.

Definition safe_filename (text : str) : str :=
  let text := nfkd text in
  let text := sub_unsafe text in
  let text := sub_runs text in
  let text := strip_by is_underscore text in
  let text := match text with [] => u "untitled" | _ => text end in
  if (100 <? length text)%nat then take 100 text else text.

(** The sanitisation rule in the words of the specification: each step is
    written as the sentence describes it. *)
Fixpoint collapse_underscores (s : str) : str :=
  match s with
  | [] => []
  | c :: s' =>
      match s' with
      | d :: _ =>
          if is_underscore c && is_underscore d then collapse_underscores s'
          else c :: collapse_underscores s'
      | [] => [c]
      end
  end.

Definition sanitize_spec (allowed : N -> bool) (text : str) : str :=
  let replaced :=
    map (fun c => if allowed c then c else underscore) (nfkd text) in
  let trimmed := strip_by is_underscore (collapse_underscores replaced) in
  let named := if bool_decide (trimmed = []) then u "untitled" else trimmed in
  take 100 named.

(** The character set [[A-Za-z0-9_.-]] of the specification. *)
Definition spec_allowed (c : N) : bool :=
  ascii_alnum c || (c =? underscore) || (c =? period) || (c =? hyphen).

End Helpers.

(** ** Feed entries and JSON values *)

(** A feed entry: a dictionary whose fields are strings. *)
Abbreviation entry := (gmap str str).

(** [d.get(k, default)] on an entry. *)
Definition entry_get (e : entry) (k : string) (dflt : str) : str :=
  default dflt (e !! u k).

(** Truth value of [d.get(k)]: a missing field and an empty string are
    both false. *)
Definition nonempty (o : option str) : option str :=
  match o with
  | Some ((_ :: _) as s) => Some s
  | _ => None
  end.

(** [a or b] on optional strings, [b] being a string. *)
Definition or_else (a : option str) (b : str) : str :=
  match nonempty a with
  | Some s => s
  | None => b
  end.

#[warnings="-register-all"]
Inductive json :=
| JNull
| JBool (b : bool)
| JNum (q : Q)
| JStr (s : str)
| JArr (l : list json)
| JObj (kv : list (str * json)).

(** Dictionaries in insertion order. *)
Fixpoint dict_get (k : str) (kv : list (str * json)) : option json :=
  match kv with
  | [] => None
  | (k', v) :: kv' => if str_eqb k' k then Some v else dict_get k kv'
  end.

Definition dict_has (k : str) (kv : list (str * json)) : bool :=
  match dict_get k kv with Some _ => true | None => false end.

(** [d[k] = v]: an existing key keeps its place, a new key goes last. *)
Fixpoint dict_set (k : str) (v : json) (kv : list (str * json))
  : list (str * json) :=
  match kv with
  | [] => [(k, v)]
  | (k', v') :: kv' =>
      if str_eqb k' k then (k', v) :: kv' else (k', v') :: dict_set k v kv'
  end.

(** The dictionary left by [d.pop(k)]. *)
Fixpoint dict_del (k : str) (kv : list (str * json)) : list (str * json) :=
  match kv with
  | [] => []
  | (k', v') :: kv' =>
      if str_eqb k' k then dict_del k kv' else (k', v') :: dict_del k kv'
  end.

(** [d.setdefault]-like step of the source: [if k not in d: d[k] = v]. *)
Definition dict_fill (k : str) (v : json) (kv : list (str * json))
  : list (str * json) :=
  if dict_has k kv then kv else dict_set k v kv.

(** Python truth value. *)
Definition truthy (v : json) : bool :=
  match v with
  | JNull => false
  | JBool b => b
  | JNum q => negb (Qeq_bool q 0)
  | JStr s => negb (bool_decide (s = []))
  | JArr l => match l with [] => false | _ => true end
  | JObj kv => match kv with [] => false | _ => true end
  end.

(** Exceptions and results. *)
Inductive exn :=
| TypeError
| AttributeError
| FileExistsError
| RuntimeError (msg : string).

Inductive res (A : Type) :=
| Ok (a : A)
| Raise (e : exn).
Arguments Ok {A} a.
Arguments Raise {A} e.

(** [v.get(k, default)]: defined on dictionaries only. *)
Definition py_get (v : json) (k : string) (dflt : json) : res json :=
  match v with
  | JObj kv => Ok (default dflt (dict_get (u k) kv))
  | _ => Raise AttributeError
  end.

(** [needle in v] for a string [needle]. *)
Definition py_in (needle : string) (v : json) : res bool :=
  match v with
  | JStr s => Ok (contains (u needle) s)
  | JArr l =>
      Ok (existsb (fun x => match x with
                            | JStr s => str_eqb s (u needle)
                            | _ => false
                            end) l)
  | JObj kv => Ok (dict_has (u needle) kv)
  | _ => Raise TypeError
  end.

(** ** rssky/core/cache_manager.py: identities *)

Section Identity.
Context `{UnicodeDB}.

Definition slash : N := 47.
Definition equals_sign : N := 61.

Definition generate_feed_id (feed_url : str) (feed_title : option str) : str :=
  match nonempty feed_title with
  | Some title =>
      let safe_title := safe_filename title in
      let url_hash := take 8 (sha1_hex feed_url) in
      safe_title ++ u "_" ++ url_hash
  | None => sha1_hex feed_url
  end.

Definition _generate_sanitized_path_component (text : str) : str :=
  safe_filename text.

Definition create_entry_cache_key (e : entry) : str :=
  let title := e !! u "title" in
  let unique_part := or_else (e !! u "link") (entry_get e "id" (u "")) in
  match nonempty title with
  | None =>
      let base_key :=
        match unique_part with [] => u "missing_id" | _ => unique_part end in
      let base_key :=
        if bool_decide (slash ∈ base_key) then
          let base_key := after_last slash base_key in
          if bool_decide (equals_sign ∈ base_key)
          then after_last equals_sign base_key
          else base_key
        else base_key in
      let key_hash := take 8 (sha1_hex base_key) in
      u "entry_" ++ key_hash
  | Some title =>
      let sanitized_title := _generate_sanitized_path_component title in
      let title_hash := take 8 (sha1_hex unique_part) in
      sanitized_title ++ u "_" ++ title_hash
  end.

End Identity.


(** ** The cache directory, the log and the upstream service *)

(** One entry directory [<cache>/<feed_id>/<entry_id>/] with its
    modification time and the two files the cache manager keeps in it. *)
Record EntryDir := {
  mtime : Q;
  fulltext : option str;
  summary : option json
}.

(** What a feed directory contains: plain files (such as [rawfeed.json],
    with their decoded JSON content) and entry directories. *)
Inductive FeedChild :=
| FFile (content : json)
| FEntry (d : EntryDir).

(** What the cache root contains: plain files and feed directories. *)
Inductive RootChild :=
| RFile
| RFeed (children : gmap str FeedChild).

Inductive io_op := OpRead | OpWrite | OpRemove.

Inductive level := Warning | Error | Critical.

(** What one HTTP request to the inference service does. *)
Inductive upstream_outcome :=
| UpException              (* the request or the decoding of its envelope raised *)
| UpStatus (text : str)    (* a status code other than 200 *)
| UpNoChoices              (* status 200 without any choice *)
| UpContent (content : str). (* choices[0].message.content *)

(** The state threaded through the operations.  [faults op path] tells
    whether the operating system fails the operation [op] on [path];
    [upstream n prompt] is the outcome of the [n]-th request; [calls]
    counts the requests made so far.  Only the [warning], [error] and
    [critical] records of the log are kept, by the fixed part of their
    message. *)
Record World := {
  root : gmap str RootChild;
  now : Q;
  today : str;
  faults : io_op -> list str -> bool;
  log : list (level * string);
  upstream : nat -> str -> upstream_outcome;
  calls : nat
}.

Definition with_root (r : gmap str RootChild) (w : World) : World :=
  {| root := r; now := now w; today := today w; faults := faults w;
     log := log w; upstream := upstream w; calls := calls w |}.

Definition logged (l : level) (msg : string) (w : World) : World :=
  {| root := root w; now := now w; today := today w; faults := faults w;
     log := log w ++ [(l, msg)]; upstream := upstream w; calls := calls w |}.

Definition called (w : World) : World :=
  {| root := root w; now := now w; today := today w; faults := faults w;
     log := log w; upstream := upstream w; calls := S (calls w) |}.

(** ** rssky/core/cache_manager.py: the store *)

Module CacheManager.

Definition rawfeed_json : str := u "rawfeed.json".
Definition fulltext_txt : str := u "fulltext.txt".
Definition summary_json : str := u "summary.json".

(** The directory [<cache>/<feed_id>], when it is one. *)
Definition feed_dir (w : World) (feed_id : str) : option (gmap str FeedChild) :=
  match root w !! feed_id with
  | Some (RFeed ch) => Some ch
  | _ => None
  end.

(** The directory [<cache>/<feed_id>/<entry_id>], when it is one. *)
Definition entry_dir (w : World) (feed_id entry_id : str) : option EntryDir :=
  match feed_dir w feed_id with
  | Some ch =>
      match ch !! entry_id with
      | Some (FEntry d) => Some d
      | _ => None
      end
  | None => None
  end.


Definition put_entry (feed_id entry_id : str) (ch : gmap str FeedChild)
    (d : EntryDir) (w : World) : World :=
  with_root (<[feed_id := RFeed (<[entry_id := FEntry d]> ch)]> (root w)) w.



Definition get_cached_content (feed_id entry_id : str) (w : World)
  : option str * World :=
  match entry_dir w feed_id entry_id with
  | Some d =>
      match fulltext d with
      | Some content =>
          if faults w OpRead [feed_id; entry_id; fulltext_txt] then
            (None, logged Error "Error reading cached content" w)
          else (Some content, w)
      | None => (None, w)
      end
  | None => (None, w)
  end.


Definition get_entry_summary (feed_id entry_id : str) (w : World)
  : option json * World :=
  match entry_dir w feed_id entry_id with
  | Some d =>
      match summary d with
      | Some data =>
          if faults w OpRead [feed_id; entry_id; summary_json] then
            (None, logged Error "Error reading cached summary" w)
          else (Some data, w)
      | None => (None, w)
      end
  | None => (None, w)
  end.

Definition has_entry_summary (feed_id entry_id : str) (w : World) : bool :=
  match entry_dir w feed_id entry_id with
  | Some d => bool_decide (is_Some (summary d))
  | None => false
  end.

(** A number as the operand of [-]: [bool] is a subclass of [int]. *)
Definition as_number (v : json) : res Q :=
  match v with
  | JNum q => Ok q
  | JBool b => Ok (if b then 1%Q else 0%Q)
  | _ => Raise TypeError
  end.

(** [get_rawfeed_path] creates the feed directory when it is missing and
    raises when a plain file has its name. *)
Definition get_cached_feed (feed_id : str) (max_age_hours : Q) (w : World)
  : res (option json) * World :=
  match root w !! feed_id with
  | Some RFile => (Raise FileExistsError, w)
  | None => (Ok None, with_root (<[feed_id := RFeed ∅]> (root w)) w)
  | Some (RFeed ch) =>
      match ch !! rawfeed_json with
      | None => (Ok None, w)
      | Some (FEntry _) =>
          (Ok None, logged Error "Error reading cached feed" w)
      | Some (FFile cache_data) =>
          if faults w OpRead [feed_id; rawfeed_json] then
            (Ok None, logged Error "Error reading cached feed" w)
          else
            match py_get cache_data "timestamp" (JNum 0) with
            | Raise e => (Raise e, w)
            | Ok t =>
                match as_number t with
                | Raise e => (Raise e, w)
                | Ok cache_time =>
                    let cache_age := (now w - cache_time)%Q in
                    let max_age_seconds := (max_age_hours * 3600)%Q in
                    if Qlt_le_dec max_age_seconds cache_age
                    then (Ok None, w)
                    else (Ok (Some cache_data), w)
                end
            end
      end
  end.

(** The sweep on one child of the feed directory [feed_id]: an entry
    directory older than the cutoff is removed unless [shutil.rmtree]
    fails on it. *)
Definition sweep_child (w : World) (cutoff : Q) (feed_id name : str)
    (c : FeedChild) : option FeedChild :=
  match c with
  | FFile _ => Some c
  | FEntry d =>
      if Qlt_le_dec (mtime d) cutoff then
        if faults w OpRemove [feed_id; name] then Some c else None
      else Some c
  end.

Definition sweep_root (w : World) (cutoff : Q) (feed_id : str)
    (c : RootChild) : option RootChild :=
  match c with
  | RFile => Some RFile
  | RFeed ch => Some (RFeed (map_imap (sweep_child w cutoff feed_id) ch))
  end.

(** The removals that fail, one [error] record each. *)
Definition sweep_errors (w : World) (cutoff : Q) : list (level * string) :=
  '(feed_id, c) ← map_to_list (root w);
  match c with
  | RFile => []
  | RFeed ch =>
      '(name, c') ← map_to_list ch;
      match sweep_child w cutoff feed_id name c', c' with
      | Some _, FEntry d =>
          if Qlt_le_dec (mtime d) cutoff
          then [(Error, "Error cleaning cache directory"%string)]
          else []
      | _, _ => []
      end
  end.

(** [clean_old_cache(days_to_keep)] of a manager built with
    [retention_days]; the cutoff is [now - timedelta(days)]. *)
Definition clean_old_cache (retention_days : Q) (days_to_keep : option Q)
    (w : World) : World :=
  let effective_retention_days := default retention_days days_to_keep in
  let cutoff_timestamp := (now w - effective_retention_days * 86400)%Q in
  {| root := map_imap (sweep_root w cutoff_timestamp) (root w);
     now := now w; today := today w; faults := faults w;
     log := log w ++ sweep_errors w cutoff_timestamp;
     upstream := upstream w; calls := calls w |}.

End CacheManager.

(** ** Library functions used by the AI processor *)

(** [demjson3.decode] and [demjson3.encode] ([None]: the call raises),
    [json.loads] ([None]: [JSONDecodeError]), [json.dumps], [float] on a
    string ([None]: [ValueError]), and [dateutil.parser.parse] followed by
    [strftime("%Y-%m-%d")] ([None]: the parse raises). *)
Class PyLib := {
  demjson3_decode : str -> option json;
  demjson3_encode : json -> option str;
  json_loads : str -> option json;
  json_dumps : json -> str;
  py_float : str -> option Q;
  dateutil_ymd : str -> option str
}.

(** The two prompt templates of the configuration. *)
Record Config := {
  get_summary_prompt : str;
  get_report_prompt : str
}.

#[global] Instance res_ret : MRet res := @Ok.
#[global] Instance res_bind : MBind res :=
  fun A B f m => match m with Ok a => f a | Raise e => Raise e end.

(** ** rssky/core/ai_processor.py *)

Module AIProcessor.
Import CacheManager.

Section Processor.
Context `{UnicodeDB} `{PyLib} (config : Config).

Definition lbrace : N := 123.
Definition rbrace : N := 125.
Definition nl : str := [10].

Definition _extract_json_from_string (s : str) (w : World) : str * World :=
  let s := strip s in
  match find lbrace s with
  | None => (u "", logged Error "Could not find starting brace" w)
  | Some start_brace =>
      match rfind rbrace s with
      | None => (u "", logged Error "Could not find ending brace" w)
      | Some end_brace =>
          let json_str := slice start_brace (end_brace + 1) s in
          match demjson3_decode json_str with
          | None =>
              (u "", logged Error "demjson3 failed to decode extracted JSON" w)
          | Some cleaned_obj =>
              match demjson3_encode cleaned_obj with
              | None =>
                  (u "",
                   logged Error "demjson3 failed to decode extracted JSON" w)
              | Some json_str => (json_str, w)
              end
          end
      end
  end.

(** One request to the inference service: the raw text and the decoded
    object.  Every call makes one HTTP request. *)
Definition _make_ai_request (prompt : str) (w : World)
  : (option str * option json) * World :=
  let outcome := upstream w (calls w) prompt in
  let w := called w in
  match outcome with
  | UpException =>
      ((Some (u "Exception during API request"), None),
       logged Error "Exception during API request" w)
  | UpStatus text =>
      ((Some (u "API request failed with status code: " ++ text), None),
       logged Error "API request failed with status code" w)
  | UpNoChoices =>
      ((None, None),
       logged Error "No choices or message content in response" w)
  | UpContent content =>
      let '(json_str, w) := _extract_json_from_string content w in
      match json_str with
      | [] =>
          ((Some content, None),
           logged Error "Could not extract JSON from API response" w)
      | _ =>
          match json_loads json_str with
          | None => ((Some content, None), logged Error "Failed to parse JSON" w)
          | Some (JObj kv) => ((Some content, Some (JObj kv)), w)
          | Some _ =>
              (* [parsed_result.keys()] raises; the outer handler returns *)
              ((Some (u "Exception during API request"), None),
               logged Error "Exception during API request" w)
          end
      end
  end.



(** The test on the summary text that recognises an error summary. *)
Definition is_error_summary (summary_text : json) : res bool :=
  a ← py_in "could not be extracted" summary_text;
  if a : bool then Ok true else
  b ← py_in "parsing error" summary_text;
  if b : bool then Ok true else
  py_in "API request failed" summary_text.






(** [importance] after the coercion of strings. *)
Definition coerce_importance (importance : json) : json :=
  match importance with
  | JStr s =>
      match py_float s with
      | Some q => JNum q
      | None => JNum 5
      end
  | _ => importance
  end.

(** [importance >= 5]. *)
Definition at_least_5 (importance : json) : res bool :=
  match importance with
  | JNum q => Ok (Qle_bool 5 q)
  | JBool _ => Ok false
  | _ => Raise TypeError
  end.

(** The condition under which a cached summary joins the digest batch. *)
Definition qualifies (summary : json) : res bool :=
  importance ← py_get summary "importance" (JNum 0);
  a ← at_least_5 (coerce_importance importance);
  if a : bool then Ok true else
  s ← py_get summary "summary" (JStr (u ""));
  b ← py_in "API request failed" s;
  if b : bool then Ok true else
  s ← py_get summary "summary" (JStr (u ""));
  py_in "could not be extracted" s.

(** The item appended to [entries_with_summaries] for a qualifying entry. *)
Definition digest_item (e : entry) (summary : json) : json :=
  let feed_title := entry_get e "feed_title" (u "") in
  let summary :=
    match summary with
    | JObj kv =>
        let kv := dict_fill (u "title") (JStr (entry_get e "title" (u ""))) kv in
        let kv := dict_fill (u "date") (JStr (entry_get e "published" (u ""))) kv in
        let kv := dict_fill (u "url") (JStr (entry_get e "link" (u ""))) kv in
        let kv := dict_fill (u "feed") (JStr feed_title) kv in
        JObj kv
    | _ => summary
    end in
  JObj [(u "title", JStr (entry_get e "title" (u "")));
        (u "summary", summary);
        (u "date", JStr (entry_get e "published" (u "")));
        (u "url", JStr (entry_get e "link" (u "")));
        (u "feed", JStr feed_title)].

(** The cached summary of an entry as the digest loop reads it. *)
Definition digest_summary (e : entry) (w : World) : option json * World :=
  let feed_id := entry_get e "feed_id" (u "") in
  let entry_id := create_entry_cache_key e in
  get_entry_summary feed_id entry_id w.

(** The first loop of [generate_digest]. *)
Fixpoint collect (entries : list entry) (acc : list json) (w : World)
  : res (list json) * World :=
  match entries with
  | [] => (Ok acc, w)
  | e :: entries' =>
      let '(summary, w) := digest_summary e w in
      match summary with
      | Some s =>
          if truthy s then
            match qualifies s with
            | Raise x => (Raise x, w)
            | Ok true => collect entries' (acc ++ [digest_item e s]) w
            | Ok false => collect entries' acc w
            end
          else collect entries' acc w
      | None => collect entries' acc w
      end
  end.

Definition empty_digest : json :=
  JObj [(u "high_impact", JArr []); (u "significant", JArr [])].

Definition digest_prompt_of (entries_with_summaries : list json) : str :=
  let summaries_json := json_dumps (JArr entries_with_summaries) in
  let digest_prompt := get_report_prompt config in
  if contains (u "{summaries_json}") digest_prompt then
    replace (u "###SUMMARIES_JSON###") summaries_json
      (replace (u "{summaries_json}") (u "###SUMMARIES_JSON###") digest_prompt)
  else
    digest_prompt ++ nl ++ nl ++
    u "Here are the summaries (each is a direct JSON object from summary.json):" ++
    nl ++ summaries_json.

(** The renaming of the alternate keys of a decoded digest. *)
Definition rename_stories (parsed_response : option json) : option json :=
  match parsed_response with
  | Some (JObj kv) =>
      if truthy (JObj kv) then
        match dict_get (u "news") kv with
        | Some v => Some (JObj (dict_set (u "stories") v (dict_del (u "news") kv)))
        | None =>
            match dict_get (u "newsStories") kv with
            | Some v =>
                Some (JObj (dict_set (u "stories") v
                              (dict_del (u "newsStories") kv)))
            | None => parsed_response
            end
        end
      else parsed_response
  | _ => parsed_response
  end.

Definition max_retries : nat := 3.

(** The loop [while attempt < max_retries], [remaining] being
    [max_retries - attempt]. *)
Fixpoint digest_attempts (remaining : nat) (digest_prompt : str) (w : World)
  : res json * World :=
  match remaining with
  | O =>
      (Raise (RuntimeError
                "Failed to generate digest via AI after multiple attempts."),
       logged Critical "All attempts to generate digest via AI failed" w)
  | S remaining' =>
      let '((raw_response, parsed_response), w) :=
        _make_ai_request digest_prompt w in
      match rename_stories parsed_response with
      | Some (JObj kv) =>
          if truthy (JObj kv) && dict_has (u "stories") kv
          then (Ok (JObj kv), w)
          else
            digest_attempts remaining' digest_prompt
              (logged Warning "Invalid AI response for digest" w)
      | _ =>
          digest_attempts remaining' digest_prompt
            (logged Warning "Invalid AI response for digest" w)
      end
  end.

Definition generate_digest (date_str : str) (entries : list entry) (w : World)
  : res json * World :=
  match collect entries [] w with
  | (Raise x, w) => (Raise x, w)
  | (Ok [], w) =>
      (Ok empty_digest, logged Warning "No significant entries found for digest" w)
  | (Ok entries_with_summaries, w) =>
      digest_attempts max_retries (digest_prompt_of entries_with_summaries) w
  end.

End Processor.
End AIProcessor.

(** ** rssky/core/cache_manager.py: the other operations *)

Module CacheOps.
Import CacheManager.

(** What the operations without a handler of their own may raise. *)
Inductive raised :=
| PyError (e : exn)
| OSError
| NotADirectoryError
| IsADirectoryError.

Inductive outcome (A : Type) :=
| Done (a : A)
| Raised (e : raised).
Arguments Done {A} a.
Arguments Raised {A} e.

(** The record that [cache_feed] stores for a parsed feed. *)
Definition feed_record (feed_data : json) (t : Q) : res json :=
  feed ← py_get feed_data "feed" (JObj []);
  title ← py_get feed "title" (JStr (u "Unknown Feed"));
  entries ← py_get feed_data "entries" (JArr []);
  Ok (JObj [(u "timestamp", JNum t); (u "feed_title", title);
            (u "entries", entries)]).

(** [cache_feed]: the feed directory is created when missing; the write
    has no handler, so a failure is raised. *)
Definition cache_feed (feed_id : str) (feed_data : json) (w : World)
  : outcome json * World :=
  match feed_record feed_data (now w) with
  | Raise e => (Raised (PyError e), w)
  | Ok cache_data =>
      let write (ch : gmap str FeedChild) :=
        match ch !! rawfeed_json with
        | Some (FEntry _) =>
            (Raised IsADirectoryError,
             with_root (<[feed_id := RFeed ch]> (root w)) w)
        | _ =>
            if faults w OpWrite [feed_id; rawfeed_json] then
              (Raised OSError, with_root (<[feed_id := RFeed ch]> (root w)) w)
            else
              (Done cache_data,
               with_root
                 (<[feed_id := RFeed (<[rawfeed_json := FFile cache_data]> ch)]>
                    (root w)) w)
        end in
      match root w !! feed_id with
      | Some RFile => (Raised (PyError FileExistsError), w)
      | Some (RFeed ch) => write ch
      | None => write ∅
      end
  end.

(** [clear_entry_summary]: [True] when the file existed and was removed. *)
Definition clear_entry_summary (feed_id entry_id : str) (w : World)
  : bool * World :=
  match root w !! feed_id with
  | Some (RFeed ch) =>
      match ch !! entry_id with
      | Some (FEntry d) =>
          match summary d with
          | Some _ =>
              if faults w OpRemove [feed_id; entry_id; summary_json] then
                (false, logged Error "Error clearing entry summary" w)
              else
                (true,
                 put_entry feed_id entry_id ch
                   {| mtime := now w; fulltext := fulltext d; summary := None |}
                   w)
          | None => (false, w)
          end
      | _ => (false, w)
      end
  | _ => (false, w)
  end.

(** [clear_feed_cache]: [shutil.rmtree] on the feed directory when the
    path exists; there is no handler. *)
Definition clear_feed_cache (feed_id : str) (w : World) : outcome unit * World :=
  match root w !! feed_id with
  | None => (Done tt, w)
  | Some RFile => (Raised NotADirectoryError, w)
  | Some (RFeed _) =>
      if faults w OpRemove [feed_id] then (Raised OSError, w)
      else (Done tt, with_root (delete feed_id (root w)) w)
  end.

(** The loop of [clear_all_cache] over the listing [items] of the cache
    root: directories are removed one by one, the first failure is
    raised. *)
Fixpoint rmtree_all (items : list (str * RootChild)) (w : World)
  : outcome unit * World :=
  match items with
  | [] => (Done tt, w)
  | (name, RFile) :: rest => rmtree_all rest w
  | (name, RFeed _) :: rest =>
      if faults w OpRemove [name] then (Raised OSError, w)
      else rmtree_all rest (with_root (delete name (root w)) w)
  end.

(** [clear_all_cache]; the listing is taken in the order of
    [map_to_list], [iterdir] having no specified order. *)
Definition clear_all_cache (w : World) : outcome unit * World :=
  rmtree_all (map_to_list (root w)) w.

(** [CacheManager.__init__] on a cache directory that exists: the cache
    is cleared when asked, then swept. *)
Definition init (retention_days : Q) (clear_cache : bool) (w : World)
  : outcome unit * World :=
  let '(r, w) := if clear_cache then clear_all_cache w else (Done tt, w) in
  match r with
  | Done _ => (Done tt, clean_old_cache retention_days None w)
  | Raised e => (Raised e, w)
  end.

End CacheOps.

(** ** rssky/utils/helpers.py: the text helpers *)

Module TextHelpers.

Definition space : N := 32.

(** The end of a slice [s[:i]] on a text of [len] characters: a negative
    index counts from the end, and both ends are clamped. *)
Definition slice_end (len : nat) (i : Z) : nat :=
  if (i <? 0)%Z then Z.to_nat (Z.of_nat len + i)
  else Nat.min (Z.to_nat i) len.

Definition truncation_mark : str := u "... [text truncated]".

Definition truncate_text (text : option str) (max_length : Z) : str :=
  match nonempty text with
  | None => u ""
  | Some text =>
      if (Z.of_nat (length text) <=? max_length)%Z then text
      else
        let stop := slice_end (length text) max_length in
        let truncated :=
          match rfind space (take stop text) with
          | Some last_space => take last_space text
          | None => take stop text
          end in
        truncated ++ truncation_mark
  end.

Definition youtube_patterns : list str :=
  [u "youtube.com/watch?v="; u "youtu.be/"; u "youtube.com/shorts/"].

Definition is_youtube_url (url : option str) : bool :=
  match nonempty url with
  | None => false
  | Some url => existsb (fun pattern => contains pattern url) youtube_patterns
  end.

(** The class [[a-zA-Z0-9_-]]. *)
Definition id_char (c : N) : bool :=
  (97 <=? c) && (c <=? 122) || (65 <=? c) && (c <=? 90) ||
  (48 <=? c) && (c <=? 57) || (c =? 95) || (c =? 45).

(** A match of [prefix([a-zA-Z0-9_-]{11})] at the head of the text: its
    group 1. *)
Definition id_here (prefix s : str) : option str :=
  if prefix_at prefix s then
    let group := take 11 (drop (length prefix) s) in
    if (length group =? 11)%nat && forallb id_char group then Some group
    else None
  else None.

(** [re.search(prefix([a-zA-Z0-9_-]{11}), s)]: the leftmost match. *)
Fixpoint search_id (prefix s : str) : option str :=
  match id_here prefix s with
  | Some group => Some group
  | None =>
      match s with
      | [] => None
      | _ :: s' => search_id prefix s'
      end
  end.

Definition extract_youtube_id (url : option str) : option str :=
  match nonempty url with
  | None => None
  | Some url =>
      match search_id (u "youtube.com/watch?v=") url with
      | Some group => Some group
      | None =>
          match search_id (u "youtu.be/") url with
          | Some group => Some group
          | None => search_id (u "youtube.com/shorts/") url
          end
      end
  end.

Definition newline : N := 10.
Definition lt_sign : N := 60.
Definition gt_sign : N := 62.
Definition ampersand : N := 38.

Definition block_tags : list str :=
  [u "</p>"; u "</div>"; u "</h1>"; u "</h2>"; u "</h3>"; u "</h4>";
   u "</h5>"; u "</h6>"; u "</li>"; u "</tr>"].

(** [re.sub(r'<[^>]*>', '', text)]: scanning from the left, a [<] that has
    a [>] after it is removed together with everything up to the first such
    [>], and the scan resumes behind it.  [skip] counts the characters of
    the current match that are still to be consumed. *)
Fixpoint sub_tags_from (skip : nat) (s : str) : str :=
  match s with
  | [] => []
  | c :: s' =>
      match skip with
      | S k => sub_tags_from k s'
      | O =>
          if c =? lt_sign then
            match find gt_sign s' with
            | Some j => sub_tags_from (S j) s'
            | None => c :: sub_tags_from 0 s'
            end
          else c :: sub_tags_from 0 s'
      end
  end.

Definition sub_tags (s : str) : str := sub_tags_from 0 s.

(** Length of the longest match of [c*] at the head of the text. *)
Fixpoint run_of (c : N) (s : str) : nat :=
  match s with
  | x :: s' => if x =? c then S (run_of c s') else O
  | [] => O
  end.

(** [re.sub(c{least,}, c * keep, text)]: a greedy match of [least] or more
    [c] is replaced by [keep] of them. *)
Fixpoint squeeze_from (c : N) (least keep skip : nat) (s : str) : str :=
  match s with
  | [] => []
  | x :: s' =>
      match skip with
      | S k => squeeze_from c least keep k s'
      | O =>
          let n := run_of c s in
          if (least <=? n)%nat
          then replicate keep c ++ squeeze_from c least keep (n - 1) s'
          else x :: squeeze_from c least keep 0 s'
      end
  end.

Definition squeeze (c : N) (least keep : nat) (s : str) : str :=
  squeeze_from c least keep 0 s.

Definition clean_html (html_text : option str) : str :=
  match nonempty html_text with
  | None => u ""
  | Some html_text =>
      let html_text :=
        fold_left (fun text tag => replace tag (tag ++ [newline; newline]) text)
          block_tags html_text in
      let html_text := replace (u "<br>") [newline] html_text in
      let html_text := replace (u "<br/>") [newline] html_text in
      let html_text := replace (u "<br />") [newline] html_text in
      let html_text := sub_tags html_text in
      let html_text := replace (u "&nbsp;") (u " ") html_text in
      let html_text := replace (u "&amp;") (u "&") html_text in
      let html_text := replace (u "&lt;") (u "<") html_text in
      let html_text := replace (u "&gt;") (u ">") html_text in
      let html_text := replace (u "&quot;") [34] html_text in
      let html_text := replace (u "&#39;") (u "'") html_text in
      let html_text := squeeze newline 3 2 html_text in
      let html_text := squeeze space 2 1 html_text in
      strip html_text
  end.

End TextHelpers.

(** ** Reference instances of the library classes *)

(** Executable instances on which the definitions above can be run.  They
    implement the fragment of each library that the examples use: ASCII
    text and CJK unified ideographs for the Unicode database; objects,
    arrays, strings, decimal numbers and the three literals, with
    comments and trailing commas in lenient mode, for the JSON codecs;
    decimal literals for [float]; ISO dates for [dateutil]. *)

Module Reference.

(** No character of the fragment has a decomposition. *)
Definition nfkd_ref (s : str) : str := s.

Definition word_char_ref (c : N) : bool :=
  ascii_word c || (0x4E00 <=? c) && (c <=? 0x9FA5).

Definition is_json_ws (c : N) : bool :=
  (c =? 32) || (c =? 9) || (c =? 10) || (c =? 13).

Definition is_digit (c : N) : bool := (48 <=? c) && (c <=? 57).

Fixpoint skip_line (s : str) : str :=
  match s with
  | [] => []
  | c :: s' => if c =? 10 then s' else skip_line s'
  end.

Fixpoint skip_block (s : str) : str :=
  match s with
  | [] => []
  | c :: s' =>
      match s' with
      | d :: r => if (c =? 42) && (d =? 47) then r else skip_block s'
      | [] => []
      end
  end.

(** White space and, in lenient mode, comments. *)
Fixpoint skip_ws (lenient : bool) (fuel : nat) (s : str) : str :=
  match fuel with
  | O => s
  | S f =>
      match s with
      | [] => []
      | c :: s' =>
          if is_json_ws c then skip_ws lenient f s'
          else if lenient && (c =? 47) then
            match s' with
            | d :: r =>
                if d =? 47 then skip_ws lenient f (skip_line r)
                else if d =? 42 then skip_ws lenient f (skip_block r)
                else s
            | [] => s
            end
          else s
      end
  end.

Definition ws (lenient : bool) (s : str) : str :=
  skip_ws lenient (length s) s.

Definition unescape (c : N) : option N :=
  if c =? 110 then Some 10
  else if c =? 116 then Some 9
  else if c =? 114 then Some 13
  else if c =? 98 then Some 8
  else if c =? 102 then Some 12
  else if (c =? 34) || (c =? 92) || (c =? 47) then Some c
  else None.

(** The text of a string literal after its opening quote. *)
Fixpoint string_body (s acc : str) : option (str * str) :=
  match s with
  | [] => None
  | c :: s' =>
      if c =? 34 then Some (rev acc, s')
      else if c =? 92 then
        match s' with
        | e :: r =>
            match unescape e with
            | Some x => string_body r (x :: acc)
            | None => None
            end
        | [] => None
        end
      else string_body s' (c :: acc)
  end.

(** A run of decimal digits: its value, its length and the rest. *)
Fixpoint digits (s : str) (acc : N) (n : nat) : N * nat * str :=
  match s with
  | c :: s' => if is_digit c then digits s' (acc * 10 + (c - 48)) (S n)
               else (acc, n, s)
  | [] => (acc, n, s)
  end.

(** A decimal literal with an optional sign and fraction. *)
Definition number (s : str) : option (Q * str) :=
  let '(neg, s) :=
    match s with
    | c :: s' => if c =? 45 then (true, s') else (false, s)
    | [] => (false, s)
    end in
  let '(i, n, s) := digits s 0 0 in
  match n with
  | O => None
  | S _ =>
      let sign (z : Z) := if neg then (- z)%Z else z in
      match s with
      | c :: s' =>
          if c =? 46 then
            let '(f, k, s'') := digits s' 0 0 in
            match k with
            | O => None
            | S _ =>
                let den := 10 ^ N.of_nat k in
                Some (Qred (Qmake (sign (Z.of_N (i * den + f)))
                                  (Z.to_pos (Z.of_N den))),
                      s'')
            end
          else Some (Qmake (sign (Z.of_N i)) 1, s)
      | [] => Some (Qmake (sign (Z.of_N i)) 1, s)
      end
  end.

(** The members of an object after its opening brace.  [first] holds
    before the first member; a closing brace after a comma is accepted in
    lenient mode only. *)
Fixpoint members (lenient : bool) (pv : str -> option (json * str))
    (fuel : nat) (s : str) (acc : list (str * json)) (first : bool)
  : option (json * str) :=
  match fuel with
  | O => None
  | S f =>
      match ws lenient s with
      | [] => None
      | c :: r =>
          if (c =? 125) && (first || lenient) then Some (JObj acc, r)
          else if c =? 34 then
            match string_body r [] with
            | Some (k, r1) =>
                match ws lenient r1 with
                | c1 :: r2 =>
                    if c1 =? 58 then
                      match pv r2 with
                      | Some (v, r3) =>
                          match ws lenient r3 with
                          | c2 :: r4 =>
                              if c2 =? 44 then
                                members lenient pv f r4 (dict_set k v acc) false
                              else if c2 =? 125 then
                                Some (JObj (dict_set k v acc), r4)
                              else None
                          | [] => None
                          end
                      | None => None
                      end
                    else None
                | [] => None
                end
            | None => None
            end
          else None
      end
  end.

(** The elements of an array after its opening bracket. *)
Fixpoint elements (lenient : bool) (pv : str -> option (json * str))
    (fuel : nat) (s : str) (acc : list json) (first : bool)
  : option (json * str) :=
  match fuel with
  | O => None
  | S f =>
      match ws lenient s with
      | [] => None
      | c :: r =>
          if (c =? 93) && (first || lenient) then Some (JArr acc, r)
          else
            match pv (c :: r) with
            | Some (v, r1) =>
                match ws lenient r1 with
                | c2 :: r2 =>
                    if c2 =? 44 then
                      elements lenient pv f r2 (acc ++ [v]) false
                    else if c2 =? 93 then Some (JArr (acc ++ [v]), r2)
                    else None
                | [] => None
                end
            | None => None
            end
      end
  end.

Fixpoint value (lenient : bool) (fuel : nat) (s : str) : option (json * str) :=
  match fuel with
  | O => None
  | S f =>
      match ws lenient s with
      | [] => None
      | c :: r =>
          if c =? 123 then members lenient (value lenient f) (length r) r [] true
          else if c =? 91 then
            elements lenient (value lenient f) (length r) r [] true
          else if c =? 34 then
            match string_body r [] with
            | Some (t, r') => Some (JStr t, r')
            | None => None
            end
          else if prefix_at (u "true") (c :: r) then Some (JBool true, drop 4 (c :: r))
          else if prefix_at (u "false") (c :: r) then
            Some (JBool false, drop 5 (c :: r))
          else if prefix_at (u "null") (c :: r) then Some (JNull, drop 4 (c :: r))
          else
            match number (c :: r) with
            | Some (q, r') => Some (JNum q, r')
            | None => None
            end
      end
  end.

(** A whole text as one JSON value. *)
Definition decode (lenient : bool) (s : str) : option json :=
  match value lenient (S (length s)) s with
  | Some (v, r) =>
      match ws lenient r with
      | [] => Some v
      | _ => None
      end
  | None => None
  end.

Fixpoint decimal (fuel : nat) (n : N) (acc : str) : str :=
  match fuel with
  | O => acc
  | S f =>
      let acc := (48 + n mod 10) :: acc in
      if n <? 10 then acc else decimal f (n / 10) acc
  end.

Definition decimal_of (n : N) : str := decimal (S (N.size_nat n)) n [].

(** The digits of [r / d] after the decimal point, [r < d]. *)
Fixpoint fraction (fuel : nat) (r d : N) : str :=
  match fuel with
  | O => []
  | S f =>
      if r =? 0 then []
      else (48 + (r * 10) / d) :: fraction f ((r * 10) mod d) d
  end.

Definition encode_number (q : Q) : str :=
  let n := Z.abs_N (Qnum q) in
  let d := Npos (Qden q) in
  (if (Qnum q <? 0)%Z then u "-" else []) ++
  decimal_of (n / d) ++
  (if n mod d =? 0 then [] else u "." ++ fraction 17 (n mod d) d).

Definition escape (c : N) : str :=
  if c =? 34 then [92; 34]
  else if c =? 92 then [92; 92]
  else if c =? 10 then [92; 110]
  else if c =? 9 then [92; 116]
  else if c =? 13 then [92; 114]
  else [c].

Definition quote (s : str) : str := [34] ++ concat (map escape s) ++ [34].

Fixpoint join (sep : str) (l : list str) : str :=
  match l with
  | [] => []
  | [x] => x
  | x :: l' => x ++ sep ++ join sep l'
  end.

(** Compact strict JSON. *)
Fixpoint encode (v : json) : str :=
  match v with
  | JNull => u "null"
  | JBool true => u "true"
  | JBool false => u "false"
  | JNum q => encode_number q
  | JStr s => quote s
  | JArr l => u "[" ++ join (u ",") (map encode l) ++ u "]"
  | JObj kv =>
      u "{" ++
      join (u ",") (map (fun p => quote (fst p) ++ u ":" ++ encode (snd p)) kv) ++
      u "}"
  end.

Definition float_ref (s : str) : option Q :=
  match number (strip s) with
  | Some (q, []) => Some q
  | _ => None
  end.

(** A text that starts with a date [YYYY-MM-DD] whose day exists in
    every month. *)
Definition ymd_ref (s : str) : option str :=
  match s with
  | y1 :: y2 :: y3 :: y4 :: h1 :: m1 :: m2 :: h2 :: d1 :: d2 :: _ =>
      let month := (m1 - 48) * 10 + (m2 - 48) in
      let day := (d1 - 48) * 10 + (d2 - 48) in
      if forallb is_digit [y1; y2; y3; y4; m1; m2; d1; d2] &&
         (h1 =? 45) && (h2 =? 45) &&
         (1 <=? month) && (month <=? 12) && (1 <=? day) && (day <=? 28)
      then Some (take 10 s)
      else None
  | _ => None
  end.

End Reference.

(** * Properties *)

(** ** The reference instances *)

Lemma word_char_ref_ascii (c : N) :
  c < 128 -> Reference.word_char_ref c = ascii_word c.
Proof.
  intros Hc. unfold Reference.word_char_ref.
  replace (0x4E00 <=? c) with false by (symmetry; apply N.leb_gt; lia).
  now rewrite orb_false_r.
Qed.

#[export] Instance ref_unicode : UnicodeDB := {|
  nfkd := Reference.nfkd_ref;
  word_char := Reference.word_char_ref;
  nfkd_ascii := fun s _ => eq_refl;
  word_char_ascii := word_char_ref_ascii
|}.

#[export] Instance ref_pylib : PyLib := {|
  demjson3_decode := Reference.decode true;
  demjson3_encode := fun v => Some (Reference.encode v);
  json_loads := Reference.decode false;
  json_dumps := Reference.encode;
  py_float := Reference.float_ref;
  dateutil_ymd := Reference.ymd_ref
|}.

(** The double quote, for literals that contain one. *)
Definition dq : str := [34].

(** ** Sanitisation *)

Section SanitizeFacts.
Context `{UnicodeDB}.

Lemma sub_runs_from_drop (k : nat) (s : str) :
  sub_runs_from k s = sub_runs_from 0 (drop k s).
Proof.
  revert s. induction k as [|k IH]; intros s.
  - now rewrite drop_0.
  - destruct s as [|c s]; [reflexivity|]. simpl. apply IH.
Qed.

Lemma sub_runs_from_cons (c : N) (s : str) :
  sub_runs_from 0 (c :: s) =
  if (2 <=? run_length (c :: s))%nat
  then underscore :: sub_runs_from (run_length (c :: s) - 1) s
  else c :: sub_runs_from 0 s.
Proof. reflexivity. Qed.

(** A text that starts with an underscore: the whole run becomes one. *)
Lemma sub_runs_head_run (s : str) :
  sub_runs_from 0 (underscore :: s) =
  underscore :: sub_runs_from 0 (drop (run_length s) s).
Proof.
  rewrite sub_runs_from_cons.
  change (run_length (underscore :: s)) with (S (run_length s)).
  destruct (run_length s) as [|m] eqn:Hm.
  - simpl. now rewrite drop_0.
  - replace (2 <=? S (S m))%nat with true by (symmetry; apply Nat.leb_le; lia).
    rewrite sub_runs_from_drop.
    replace (S (S m) - 1)%nat with (S m) by lia. reflexivity.
Qed.

Lemma is_underscore_spec (c : N) : is_underscore c = true <-> c = underscore.
Proof. unfold is_underscore. apply N.eqb_eq. Qed.

Lemma sub_runs_collapse (s : str) : sub_runs s = collapse_underscores s.
Proof.
  unfold sub_runs. induction s as [|c s IH]; [reflexivity|].
  destruct (is_underscore c) eqn:Hc.
  - apply is_underscore_spec in Hc. subst c.
    destruct s as [|d s]; [reflexivity|].
    destruct (is_underscore d) eqn:Hd.
    + apply is_underscore_spec in Hd. subst d.
      rewrite sub_runs_head_run.
      change (drop (run_length (underscore :: s)) (underscore :: s))
        with (drop (run_length s) s).
      rewrite <- sub_runs_head_run, IH. reflexivity.
    + rewrite sub_runs_from_cons.
      assert (run_length (underscore :: d :: s) = 1%nat) as ->.
      { simpl. unfold is_underscore in Hd. now rewrite Hd. }
      simpl (2 <=? 1)%nat. cbv iota. rewrite IH.
      change (collapse_underscores (underscore :: d :: s)) with
        (if is_underscore underscore && is_underscore d
         then collapse_underscores (d :: s)
         else underscore :: collapse_underscores (d :: s)).
      now rewrite Hd, andb_false_r.
  - rewrite sub_runs_from_cons.
    assert (run_length (c :: s) = 0%nat) as ->.
    { simpl. unfold is_underscore in Hc. now rewrite Hc. }
    simpl (2 <=? 0)%nat. cbv iota. rewrite IH.
    destruct s as [|d s]; [reflexivity|].
    change (collapse_underscores (c :: d :: s)) with
      (if is_underscore c && is_underscore d
       then collapse_underscores (d :: s)
       else c :: collapse_underscores (d :: s)).
    now rewrite Hc.
Qed.

Lemma kept_char_ascii (c : N) : c < 128 -> kept_char c = spec_allowed c.
Proof.
  intros Hc. unfold kept_char, spec_allowed.
  rewrite (word_char_ascii c Hc). unfold ascii_word, underscore.
  rewrite <- !orb_assoc. do 2 f_equal. apply orb_comm.
Qed.

Lemma safe_filename_unfold (text : str) :
  safe_filename text = sanitize_spec kept_char text.
Proof.
  unfold safe_filename, sanitize_spec, sub_unsafe.
  rewrite sub_runs_collapse.
  set (t := strip_by is_underscore _).
  destruct t as [|c t'] eqn:Ht.
  - reflexivity.
  - rewrite bool_decide_eq_false_2 by discriminate.
    destruct (100 <? length (c :: t'))%nat eqn:Hlen; [reflexivity|].
    apply Nat.ltb_ge in Hlen. now rewrite take_ge.
Qed.

Lemma sanitize_spec_nonempty (allowed : N -> bool) (text : str) :
  sanitize_spec allowed text <> [].
Proof.
  unfold sanitize_spec.
  set (t := strip_by is_underscore _).
  destruct (bool_decide (t = [])) eqn:Ht.
  - vm_compute. discriminate.
  - apply bool_decide_eq_false in Ht. destruct t; [congruence|]. discriminate.
Qed.

Lemma safe_filename_nonempty (text : str) : safe_filename text <> [].
Proof. rewrite safe_filename_unfold. apply sanitize_spec_nonempty. Qed.

End SanitizeFacts.

Example safe_filename_test_title :
  safe_filename (u "Feed With/:*?" ++ dq ++ u "<>|Chars") = u "Feed_With_Chars".
Proof. vm_compute. reflexivity. Qed.

Example safe_filename_untitled : safe_filename (u "///") = u "untitled".
Proof. vm_compute. reflexivity. Qed.

Example safe_filename_long :
  safe_filename (repeat 65 300) = repeat 65 100.
Proof. vm_compute. reflexivity. Qed.

(** C6, as amended.  [safe_filename] normalises the text, replaces every
    character that is neither a word character of the Unicode database
    (the class [\w]) nor ['-'] nor ['.'] by ['_'], collapses runs of
    ['_'], trims ['_'] at both ends, substitutes "untitled" for an empty
    result and truncates to 100 characters.  On ASCII text the characters
    kept are exactly [[A-Za-z0-9_.-]].  The result is never empty and
    never longer than 100 characters. *)
Theorem safe_filename_sanitizes `{UnicodeDB} (text : str) :
  safe_filename text = sanitize_spec kept_char text /\
  (is_ascii text -> safe_filename text = sanitize_spec spec_allowed text) /\
  (length (safe_filename text) <= 100)%nat /\
  safe_filename text <> [].
Proof.
  rewrite safe_filename_unfold. repeat split.
  - intros Hascii. unfold sanitize_spec. rewrite (nfkd_ascii text Hascii).
    assert (map (fun c => if kept_char c then c else underscore) text =
            map (fun c => if spec_allowed c then c else underscore) text) as ->;
      [|reflexivity].
    induction Hascii as [|c s Hc _ IH]; [reflexivity|].
    simpl. now rewrite IH, (kept_char_ascii c Hc).
  - unfold sanitize_spec. rewrite length_take. lia.
  - apply sanitize_spec_nonempty.
Qed.

Lemma safe_filename_sanitizes_witness :
  safe_filename (u "Test Entry 1") =
  sanitize_spec spec_allowed (u "Test Entry 1").
Proof.
  apply (safe_filename_sanitizes (u "Test Entry 1")).
  apply (bool_decide_unpack _). vm_compute. exact I.
Defined.

(** C6, as stated, fails on a letter outside ASCII: the ideograph U+4E2D is
    a word character, so it is kept, although it lies outside
    [[A-Za-z0-9_.-]]; the rule of the specification would yield
    "untitled". *)
Lemma safe_filename_keeps_ideograph :
  safe_filename [0x4E2D] = [0x4E2D] /\
  spec_allowed 0x4E2D = false /\
  safe_filename [0x4E2D] <> sanitize_spec spec_allowed [0x4E2D].
Proof. vm_compute. repeat split. discriminate. Qed.

(** ** Entry identities *)

Example sha1_8_empty : sha1_8 (u "") = u "da39a3ee".
Proof. vm_compute. reflexivity. Qed.

Example sha1_8_missing_id : sha1_8 (u "missing_id") = u "6aacd5e5".
Proof. vm_compute. reflexivity. Qed.

Arguments sha1_hex : simpl never.
Arguments sha1_8 : simpl never.

Lemma nonempty_Some (o : option str) (s : str) :
  nonempty o = Some s -> o = Some s /\ s <> [].
Proof.
  destruct o as [[|c t]|]; simpl; intros [= <-].
  split; [reflexivity | discriminate].
Qed.

Lemma create_entry_cache_key_nonempty `{UnicodeDB} (e : entry) :
  create_entry_cache_key e <> [].
Proof.
  unfold create_entry_cache_key.
  destruct (nonempty (e !! u "title")) as [t|].
  - unfold _generate_sanitized_path_component.
    intros Heq. apply app_eq_nil in Heq as [Heq _].
    now apply (safe_filename_nonempty t).
  - discriminate.
Qed.

(** C5, as amended.  For an item with neither a link nor an id, the key is
    "entry_" followed by the first 8 hexadecimal digits of the SHA-1 of
    the fixed token "missing_id" when the item has no title, and the
    sanitised title, "_" and the first 8 hexadecimal digits of the SHA-1
    of the empty string when it has one.  The derivation is total, and
    for every item the key is a non-empty string. *)
Theorem entry_key_without_locator `{UnicodeDB} (e : entry) :
  (e !! u "link" = None -> e !! u "id" = None ->
   create_entry_cache_key e =
   match nonempty (e !! u "title") with
   | None => u "entry_" ++ sha1_8 (u "missing_id")
   | Some title => safe_filename title ++ u "_" ++ sha1_8 (u "")
   end) /\
  create_entry_cache_key e <> [].
Proof.
  split.
  - intros Hlink Hid. unfold create_entry_cache_key, entry_get.
    rewrite Hlink, Hid.
    change (or_else None (default (u "") None)) with (u "").
    destruct (nonempty (e !! u "title")).
    + reflexivity.
    + vm_compute. reflexivity.
  - apply create_entry_cache_key_nonempty.
Qed.

Lemma entry_key_without_locator_witness :
  create_entry_cache_key ({[ u "title" := u "Old Entry" ]} : entry) =
  u "Old_Entry_da39a3ee".
Proof.
  pose proof (proj1 (entry_key_without_locator
                       ({[ u "title" := u "Old Entry" ]} : entry))) as Hkey.
  rewrite Hkey; vm_compute; reflexivity.
Defined.

(** C5, as stated, fails on the item without any field: its key ends with
    the hash of "missing_id", not with the hash of the empty string. *)
Lemma entry_key_not_hash_of_empty :
  create_entry_cache_key (∅ : entry) = u "entry_6aacd5e5" /\
  ~ exists token,
      create_entry_cache_key (∅ : entry) = token ++ sha1_8 (u "").
Proof.
  assert (create_entry_cache_key (∅ : entry) = u "entry_" ++ u "6aacd5e5") as Hk
    by (vm_compute; reflexivity).
  split; [exact Hk|].
  intros [token Heq]. rewrite Hk in Heq.
  apply app_inj_2 in Heq as [_ Heq]; [|reflexivity].
  vm_compute in Heq. discriminate.
Qed.

(** ** The store *)

Module StoreFacts.
Import CacheManager.

(** A quiet environment: no I/O fault, no upstream choice. *)
Definition quiet (r : gmap str RootChild) (t : Q) : World :=
  {| root := r; now := t; today := u "2023-01-03";
     faults := fun _ _ => false; log := [];
     upstream := fun _ _ => UpNoChoices; calls := 0 |}.


Definition old_dir : EntryDir :=
  {| mtime := 1000; fulltext := Some (u "Old content");
     summary := Some (JObj [(u "summary", JStr (u "old"))]) |}.

Definition new_dir : EntryDir :=
  {| mtime := 200000; fulltext := Some (u "New content");
     summary := Some (JObj [(u "summary", JStr (u "new"))]) |}.

Definition snapshot : json :=
  JObj [(u "feed_title", JStr (u "Unknown Feed")); (u "entries", JArr [])].

Definition feed_children : gmap str FeedChild :=
  {[ rawfeed_json := FFile snapshot;
     u "Old_Entry_c1b3a0f2" := FEntry old_dir;
     u "Test_Entry_1_4a0a19c3" := FEntry new_dir ]}.

(** One feed with a snapshot, an entry last modified at time 1000 and one
    last modified at time 200000; the clock shows 200100. *)
Definition sweep_world : World :=
  quiet {[ u "Old_Feed_0a1b2c3d" := RFeed feed_children ]} 200100.




(** *** Failing writes *)


Lemma entry_dir_put (feed_id entry_id : str) (ch : gmap str FeedChild)
    (d : EntryDir) (w : World) :
  entry_dir (put_entry feed_id entry_id ch d w) feed_id entry_id = Some d.
Proof.
  unfold entry_dir, feed_dir, put_entry. cbn [root with_root].
  rewrite lookup_insert_eq, lookup_insert_eq. reflexivity.
Qed.


(** What a read finds depends on the entry directory and on the faults. *)
Lemma get_cached_content_fst (feed_id entry_id : str) (w : World) :
  fst (get_cached_content feed_id entry_id w) =
  match entry_dir w feed_id entry_id with
  | Some d =>
      if faults w OpRead [feed_id; entry_id; fulltext_txt] then None
      else fulltext d
  | None => None
  end.
Proof.
  unfold get_cached_content.
  destruct (entry_dir w feed_id entry_id) as [d|]; [|reflexivity].
  destruct (fulltext d); [|now destruct (faults w _ _)].
  now destruct (faults w _ _).
Qed.

Lemma get_entry_summary_fst (feed_id entry_id : str) (w : World) :
  fst (get_entry_summary feed_id entry_id w) =
  match entry_dir w feed_id entry_id with
  | Some d =>
      if faults w OpRead [feed_id; entry_id; summary_json] then None
      else summary d
  | None => None
  end.
Proof.
  unfold get_entry_summary.
  destruct (entry_dir w feed_id entry_id) as [d|]; [|reflexivity].
  destruct (summary d); [|now destruct (faults w _ _)].
  now destruct (faults w _ _).
Qed.






(** *** The freshness window of the raw snapshot *)

(** C10, as amended.  A snapshot whose payload has no "timestamp" is
    dated 0: the read returns absent when [max_age_hours * 3600] is less
    than the current time, and returns the snapshot otherwise. *)
Theorem get_cached_feed_without_timestamp (feed_id : str) (max_age_hours : Q)
    (w : World) (ch : gmap str FeedChild) (kv : list (str * json)) :
  root w !! feed_id = Some (RFeed ch) ->
  ch !! rawfeed_json = Some (FFile (JObj kv)) ->
  dict_get (u "timestamp") kv = None ->
  faults w OpRead [feed_id; rawfeed_json] = false ->
  ((max_age_hours * 3600 < now w)%Q ->
   get_cached_feed feed_id max_age_hours w = (Ok None, w)) /\
  ((now w <= max_age_hours * 3600)%Q ->
   get_cached_feed feed_id max_age_hours w = (Ok (Some (JObj kv)), w)).
Proof.
  intros Hfeed Hraw Hts Hread. unfold get_cached_feed.
  rewrite Hfeed, Hraw, Hread. cbn [py_get]. rewrite Hts. cbn [default as_number].
  assert ((now w - 0 == now w)%Q) as Hage by ring.
  split; intros Hcmp.
  - destruct (Qlt_le_dec _ _) as [_|Hle]; [reflexivity|].
    exfalso. rewrite Hage in Hle. exact (Qlt_not_le _ _ Hcmp Hle).
  - destruct (Qlt_le_dec _ _) as [Hlt|_]; [|reflexivity].
    exfalso. rewrite Hage in Hlt. exact (Qlt_not_le _ _ Hlt Hcmp).
Qed.

(** A snapshot without a timestamp, read on 2023-11-14 (epoch second
    1700000000). *)
Definition undated_world : World :=
  quiet {[ u "Old_Feed_0a1b2c3d" := RFeed {[ rawfeed_json := FFile snapshot ]} ]}
        1700000000.

Lemma get_cached_feed_without_timestamp_witness :
  get_cached_feed (u "Old_Feed_0a1b2c3d") 6 undated_world =
  (Ok None, undated_world).
Proof.
  apply (get_cached_feed_without_timestamp (u "Old_Feed_0a1b2c3d") 6
           undated_world {[ rawfeed_json := FFile snapshot ]}
           [(u "feed_title", JStr (u "Unknown Feed")); (u "entries", JArr [])]);
    vm_compute; reflexivity.
Defined.

(** C10, as stated, fails for a window that reaches back before the
    epoch: with [max_age_hours = 1000000], which is positive, the undated
    snapshot is returned. *)
Lemma undated_snapshot_within_long_window :
  (0 < 1000000)%Q /\
  fst (get_cached_feed (u "Old_Feed_0a1b2c3d") 1000000 undated_world) =
  Ok (Some snapshot).
Proof. vm_compute. split; reflexivity. Qed.

End StoreFacts.

(** ** The resilient extractor *)

Module ExtractorFacts.
Import CacheManager AIProcessor.

Lemma lstrip_by_subseteq (p : N -> bool) (s : str) : lstrip_by p s ⊆ s.
Proof.
  induction s as [|c s IH]; [reflexivity|]. simpl.
  destruct (p c); [|reflexivity].
  intros x Hx. right. now apply IH.
Qed.

Lemma strip_by_subseteq (p : N -> bool) (s : str) : strip_by p s ⊆ s.
Proof.
  unfold strip_by, rstrip_by. intros x Hx.
  apply (lstrip_by_subseteq p s).
  apply list_elem_of_In, in_rev, list_elem_of_In.
  apply (lstrip_by_subseteq p (rev (lstrip_by p s))).
  now apply list_elem_of_In, in_rev, list_elem_of_In in Hx.
Qed.

Lemma find_None (c : N) (s : str) : c ∉ s -> find c s = None.
Proof.
  induction s as [|x s IH]; [reflexivity|]. intros Hc. simpl.
  destruct (N.eqb_spec x c) as [->|_].
  - exfalso. apply Hc. left.
  - rewrite IH; [reflexivity|]. intros Hin. apply Hc. now right.
Qed.

Section Generic.
Context `{PyLib}.

(** The text that [_extract_json_from_string] returns. *)
Definition extracted (s : str) : str :=
  let t := strip s in
  match find lbrace t, rfind rbrace t with
  | Some i, Some j =>
      match demjson3_decode (slice i (j + 1) t) with
      | Some v => default (u "") (demjson3_encode v)
      | None => u ""
      end
  | _, _ => u ""
  end.

Lemma extract_json_fst (s : str) (w : World) :
  fst (_extract_json_from_string s w) = extracted s.
Proof.
  unfold _extract_json_from_string, extracted.
  destruct (find lbrace (strip s)); [|reflexivity].
  destruct (rfind rbrace (strip s)); [|reflexivity].
  destruct (demjson3_decode _); [|reflexivity].
  destruct (demjson3_encode _); reflexivity.
Qed.

End Generic.

(** The reply of the specification's example, and a reply with comments. *)
Definition sure_json : str :=
  u "Sure! ```json" ++ nl ++ u "{" ++ dq ++ u "a" ++ dq ++ u ":1,}" ++ nl ++
  u "```".

Definition commented_json : str :=
  u "<think>ok</think> { /* rated */ " ++ dq ++ u "importance" ++ dq ++
  u ": 7, // high" ++ nl ++ u "} Done.".

(** C4.  Whatever the JSON library does, the extractor takes the text
    between the first ['{'] and the last ['}'] of the stripped reply,
    both included, decodes it leniently and returns its strict
    re-encoding; it returns the empty string, its failure result, when a
    brace is missing or the decoding fails.  With the reference codec the
    reply [Sure! ```json {"a":1,} ```] yields [{"a":1}], a reply with
    comments is accepted, and a reply without ['{'] fails. *)
Theorem extract_json_from_string_spec :
  (forall (L : PyLib) (s : str) (w : World),
      let t := strip s in
      (find lbrace t = None \/ rfind rbrace t = None ->
       fst (_extract_json_from_string s w) = u "") /\
      (lbrace ∉ s -> fst (_extract_json_from_string s w) = u "") /\
      (forall i j,
          find lbrace t = Some i -> rfind rbrace t = Some j ->
          fst (_extract_json_from_string s w) =
          match demjson3_decode (slice i (j + 1) t) with
          | Some v => default (u "") (demjson3_encode v)
          | None => u ""
          end)) /\
  (forall w : World,
      fst (_extract_json_from_string sure_json w) =
        u "{" ++ dq ++ u "a" ++ dq ++ u ":1}" /\
      json_loads (fst (_extract_json_from_string sure_json w)) =
        Some (JObj [(u "a", JNum 1)]) /\
      fst (_extract_json_from_string commented_json w) =
        u "{" ++ dq ++ u "importance" ++ dq ++ u ":7}").
Proof.
  split.
  - intros L s w t. repeat split.
    + intros Hmiss. rewrite extract_json_fst. unfold extracted. fold t.
      destruct Hmiss as [-> | ->]; [reflexivity|].
      now destruct (find lbrace t).
    + intros Hno. rewrite extract_json_fst. unfold extracted. fold t.
      rewrite (find_None lbrace t); [reflexivity|].
      intros Hin. apply Hno. now apply (strip_by_subseteq isspace s).
    + intros i j Hi Hj. rewrite extract_json_fst. unfold extracted. fold t.
      now rewrite Hi, Hj.
  - intros w. rewrite !extract_json_fst. vm_compute. repeat split.
Qed.

Lemma extract_json_from_string_spec_witness :
  fst (_extract_json_from_string (u "I cannot summarise this article.")
         StoreFacts.sweep_world) = u "".
Proof.
  apply (proj1 extract_json_from_string_spec ref_pylib
           (u "I cannot summarise this article.") StoreFacts.sweep_world).
  vm_compute. intros Hin.
  repeat (apply elem_of_cons in Hin as [Hin|Hin]; [discriminate|]).
  now apply elem_of_nil in Hin.
Defined.

End ExtractorFacts.

(** ** The summarisation pipeline and the digest *)

Module PipelineFacts.
Import CacheManager AIProcessor StoreFacts ExtractorFacts.

(** Two worlds with the same clock, faults and upstream service. *)
Definition same_env (w w' : World) : Prop :=
  now w' = now w /\ today w' = today w /\ faults w' = faults w /\
  upstream w' = upstream w.

(** Two worlds that also have the same cache directory. *)
Definition same_store (w w' : World) : Prop :=
  root w' = root w /\ same_env w w'.

Lemma same_store_refl (w : World) : same_store w w.
Proof. repeat split. Qed.

Lemma same_store_trans (w1 w2 w3 : World) :
  same_store w1 w2 -> same_store w2 w3 -> same_store w1 w3.
Proof. unfold same_store, same_env. intuition congruence. Qed.




Lemma entry_dir_same_store (w w' : World) (feed_id entry_id : str) :
  same_store w w' -> entry_dir w' feed_id entry_id = entry_dir w feed_id entry_id.
Proof. intros [Hr _]. unfold entry_dir, feed_dir. now rewrite Hr. Qed.

Lemma get_entry_summary_same_store (w w' : World) (feed_id entry_id : str) :
  same_store w w' ->
  fst (get_entry_summary feed_id entry_id w') =
  fst (get_entry_summary feed_id entry_id w).
Proof.
  intros Hs. rewrite !get_entry_summary_fst, (entry_dir_same_store w w') by easy.
  destruct Hs as (_ & _ & _ & -> & _). reflexivity.
Qed.

Lemma get_cached_content_same_store (w w' : World) (feed_id entry_id : str) :
  same_store w w' ->
  fst (get_cached_content feed_id entry_id w') =
  fst (get_cached_content feed_id entry_id w).
Proof.
  intros Hs. rewrite !get_cached_content_fst, (entry_dir_same_store w w') by easy.
  destruct Hs as (_ & _ & _ & -> & _). reflexivity.
Qed.

Lemma get_entry_summary_world (feed_id entry_id : str) (w : World) :
  same_store w (snd (get_entry_summary feed_id entry_id w)) /\
  calls (snd (get_entry_summary feed_id entry_id w)) = calls w /\
  (is_Some (fst (get_entry_summary feed_id entry_id w)) ->
   snd (get_entry_summary feed_id entry_id w) = w).
Proof.
  unfold get_entry_summary.
  destruct (entry_dir w feed_id entry_id) as [d|];
    [|repeat split; intros [? [=]]].
  destruct (summary d); [|repeat split; intros [? [=]]].
  destruct (faults w _ _); repeat split. intros [? [=]].
Qed.




Section Pipeline.
Context `{UnicodeDB} `{PyLib} (config : Config).





(** The fallback record for an entry on the day [day]. *)
Definition fallback_of (e : entry) (day : str) : json :=
  let entry_date :=
    match nonempty (e !! u "published") with
    | Some d => Some d
    | None => nonempty (e !! u "updated")
    end in
  JObj [(u "importance", JNum 5);
        (u "summary",
         JStr (u "Summary could not be extracted for: " ++
               entry_get e "title" (u "Unknown")));
        (u "impact",
         JStr (u "Impact could not be determined due to processing error."));
        (u "date",
         JStr match entry_date with
              | Some d => default day (dateutil_ymd d)
              | None => day
              end)].

























(** The state in which a terminal write leaves an entry directory that
    existed before. *)
Definition stored (w0 : World) (feed_id entry_id : str) (d0 : EntryDir)
    (res : json * World) : Prop :=
  (exists d', entry_dir (snd res) feed_id entry_id = Some d' /\
              summary d' = Some (fst res) /\ fulltext d' = fulltext d0) /\
  truthy (fst res) = true /\ same_env w0 (snd res).








(** *** The digest *)

Lemma str_eqb_eq (a b : str) : str_eqb a b = true <-> a = b.
Proof. unfold str_eqb. apply bool_decide_eq_true. Qed.

Lemma str_eqb_refl (a : str) : str_eqb a a = true.
Proof. now apply str_eqb_eq. Qed.








Lemma collect_world (entries : list entry) :
  forall (acc : list json) (w : World),
    same_store w (snd (collect entries acc w)) /\
    calls (snd (collect entries acc w)) = calls w.
Proof.
  induction entries as [|e entries IH]; intros acc w; [repeat split|].
  cbn [collect]. unfold digest_summary.
  pose proof (get_entry_summary_world (entry_get e "feed_id" (u ""))
                (create_entry_cache_key e) w) as (Hs & Hc & _).
  destruct (get_entry_summary _ _ w) as [o w1]. cbn [fst snd] in Hs, Hc.
  assert (forall acc',
             same_store w (snd (collect entries acc' w1)) /\
             calls (snd (collect entries acc' w1)) = calls w) as Hrec.
  { intros acc'. destruct (IH acc' w1) as [Hs' Hc']. split; [|congruence].
    now apply (same_store_trans w w1). }
  destruct o as [s|]; [|apply Hrec].
  destruct (truthy s); [|apply Hrec].
  destruct (qualifies s) as [[|]|x]; try apply Hrec.
  split; [exact Hs | exact Hc].
Qed.



End Pipeline.

(** *** Runs on the reference instances *)

Definition test_config : Config :=
  {| get_summary_prompt := u "Summarize: {article_content}";
     get_report_prompt := u "Digest: {summaries_json}" |}.

Definition test_feed_id : str :=
  Eval vm_compute in generate_feed_id (u "http://test.com/feed") (Some (u "Test Feed")).

(** The entry of [tests/test_ai_processor.py]. *)
Definition test_entry : entry :=
  list_to_map
    [(u "title", u "Test Entry");
     (u "link", u "http://test.com/entry");
     (u "id", u "12345");
     (u "published", u "2023-01-01T12:00:00Z");
     (u "feed_title", u "Test Feed");
     (u "feed_id", test_feed_id)].

Definition test_entry_id : str :=
  Eval vm_compute in create_entry_cache_key test_entry.

(** A cache that holds at most the directory of the test entry, and an
    upstream service. *)
Definition pipeline_world (d : option EntryDir)
    (service : nat -> str -> upstream_outcome) : World :=
  {| root :=
       {[ test_feed_id :=
            RFeed match d with
                  | Some d => {[ test_entry_id := FEntry d ]}
                  | None => ∅
                  end ]};
     now := 1700000000; today := u "2023-11-14";
     faults := fun _ _ => false; log := [];
     upstream := service; calls := 0 |}.






Definition always (o : upstream_outcome) : nat -> str -> upstream_outcome :=
  fun _ _ => o.

Definition malformed : upstream_outcome :=
  UpContent (u "I am sorry, there is no JSON today.").




Definition with_both (s : json) : EntryDir :=
  {| mtime := 1699990000; fulltext := Some (u "This is the article content.");
     summary := Some s |}.


Definition fields (v : json) : list (str * json) :=
  match v with
  | JObj kv => kv
  | _ => []
  end.







End PipelineFacts.

(** * Further properties of the code *)

(** ** Identities are safe path components *)

Module IdentityFacts.

Definition is_hex (c : N) : bool :=
  (48 <=? c) && (c <=? 57) || (97 <=? c) && (c <=? 102).

Lemma hex_digit_is_hex (d : N) : d < 16 -> is_hex (Sha1.hex_digit d) = true.
Proof.
  intros Hd. unfold is_hex, Sha1.hex_digit.
  destruct (N.ltb_spec d 10).
  - apply orb_true_iff. left. apply andb_true_iff. split; apply N.leb_le; lia.
  - apply orb_true_iff. right. apply andb_true_iff. split; apply N.leb_le; lia.
Qed.

Lemma hex_word_shape (w : N) :
  length (Sha1.hex_word w) = 8%nat /\
  Forall (fun c => is_hex c = true) (Sha1.hex_word w).
Proof.
  unfold Sha1.hex_word. split; [reflexivity|].
  apply Forall_map, Forall_forall. intros i _. cbn beta.
  apply hex_digit_is_hex. apply N.mod_lt. discriminate.
Qed.

Lemma sha1_hex_shape (s : str) :
  length (sha1_hex s) = 40%nat /\ Forall (fun c => is_hex c = true) (sha1_hex s).
Proof.
  unfold sha1_hex, Sha1.hexdigest. cbv zeta.
  set (h := fold_left Sha1.compress _ _).
  pose proof (hex_word_shape (Sha1.ra h)) as [La Fa].
  pose proof (hex_word_shape (Sha1.rb h)) as [Lb Fb].
  pose proof (hex_word_shape (Sha1.rc h)) as [Lc Fc].
  pose proof (hex_word_shape (Sha1.rd h)) as [Ld Fd].
  pose proof (hex_word_shape (Sha1.re h)) as [Le Fe].
  split.
  - rewrite !length_app. lia.
  - repeat (apply Forall_app; split); assumption.
Qed.

Lemma sha1_8_shape (s : str) :
  length (sha1_8 s) = 8%nat /\ Forall (fun c => is_hex c = true) (sha1_8 s).
Proof.
  destruct (sha1_hex_shape s) as [L F]. unfold sha1_8. split.
  - rewrite length_take. lia.
  - now apply Forall_take.
Qed.

(** No adjacent underscores. *)
Fixpoint no_double (s : str) : bool :=
  match s with
  | [] => true
  | c :: t =>
      match t with
      | d :: _ => negb (is_underscore c && is_underscore d) && no_double t
      | [] => true
      end
  end.

Lemma no_double_cons2 (c d : N) (t : str) :
  no_double (c :: d :: t) =
  negb (is_underscore c && is_underscore d) && no_double (d :: t).
Proof. reflexivity. Qed.

Lemma collapse_cons2 (c d : N) (s : str) :
  collapse_underscores (c :: d :: s) =
  if is_underscore c && is_underscore d
  then collapse_underscores (d :: s)
  else c :: collapse_underscores (d :: s).
Proof. reflexivity. Qed.

(** Collapsing keeps the first character. *)
Lemma collapse_head (s : str) (d : N) :
  exists t, collapse_underscores (d :: s) = d :: t.
Proof.
  revert d. induction s as [|x s IHs]; intros d; [now exists []|].
  rewrite collapse_cons2.
  destruct (is_underscore d && is_underscore x) eqn:Hdx; [|now eexists].
  apply andb_true_iff in Hdx as [Hd Hx].
  apply is_underscore_spec in Hd, Hx. subst d x. apply IHs.
Qed.

Lemma no_double_collapse (s : str) : no_double (collapse_underscores s) = true.
Proof.
  induction s as [|c s IH]; [reflexivity|].
  destruct s as [|d s]; [reflexivity|].
  rewrite collapse_cons2.
  destruct (is_underscore c && is_underscore d) eqn:Hcd; [exact IH|].
  destruct (collapse_head s d) as [t Ht].
  rewrite Ht in IH |- *. now rewrite no_double_cons2, Hcd, IH.
Qed.

Lemma no_double_app_l (a b : str) : no_double (a ++ b) = true -> no_double a = true.
Proof.
  induction a as [|c a IH]; [reflexivity|].
  destruct a as [|d a]; [reflexivity|].
  change ((c :: d :: a) ++ b) with (c :: d :: (a ++ b)).
  rewrite !no_double_cons2. intros H.
  apply andb_true_iff in H as [-> H]. now rewrite (IH H).
Qed.

Lemma no_double_app_r (a b : str) : no_double (a ++ b) = true -> no_double b = true.
Proof.
  induction a as [|c a IH]; [easy|].
  intros H. apply IH.
  change ((c :: a) ++ b) with (c :: (a ++ b)) in H.
  destruct (a ++ b) as [|d t]; [reflexivity|].
  rewrite no_double_cons2 in H. now apply andb_true_iff in H as [_ H].
Qed.

Lemma lstrip_by_suffix (p : N -> bool) (s : str) :
  exists t, s = t ++ lstrip_by p s.
Proof.
  induction s as [|c s [t Ht]]; [now exists []|]. cbn [lstrip_by].
  destruct (p c); [|now exists []].
  exists (c :: t). cbn [app]. now f_equal.
Qed.

Lemma strip_by_infix (p : N -> bool) (s : str) :
  exists a b, s = a ++ strip_by p s ++ b.
Proof.
  unfold strip_by, rstrip_by.
  destruct (lstrip_by_suffix p s) as [a Ha].
  destruct (lstrip_by_suffix p (rev (lstrip_by p s))) as [b Hb].
  exists a, (rev b). rewrite <- rev_app_distr, <- Hb, rev_involutive. exact Ha.
Qed.

Lemma lstrip_by_head (p : N -> bool) (s : str) (c : N) (t : str) :
  lstrip_by p s = c :: t -> p c = false.
Proof.
  induction s as [|x s IH]; [discriminate|]. cbn [lstrip_by].
  destruct (p x) eqn:Hx; [exact IH|]. now intros [= <- _].
Qed.

Lemma strip_by_head (p : N -> bool) (s : str) (c : N) (t : str) :
  strip_by p s = c :: t -> p c = false.
Proof.
  unfold strip_by, rstrip_by. intros Hs.
  destruct (lstrip_by_suffix p (rev (lstrip_by p s))) as [b Hb].
  apply (f_equal (@rev N)) in Hb. rewrite rev_involutive, rev_app_distr, Hs in Hb.
  apply (lstrip_by_head p s c (t ++ rev b)). exact Hb.
Qed.

Lemma collapse_subseteq (s : str) : collapse_underscores s ⊆ s.
Proof.
  induction s as [|c s IH]; [reflexivity|].
  destruct s as [|d s]; [reflexivity|]. rewrite collapse_cons2.
  destruct (is_underscore c && is_underscore d).
  - intros x Hx. right. now apply IH.
  - intros x Hx. apply elem_of_cons in Hx as [->|Hx]; [left|right; now apply IH].
Qed.

Section Shape.
Context `{UnicodeDB}.

Lemma kept_underscore : kept_char underscore = true.
Proof. now rewrite kept_char_ascii. Qed.

Lemma kept_slash : kept_char slash = false.
Proof. now rewrite kept_char_ascii. Qed.

Lemma safe_filename_kept (text : str) :
  Forall (fun c => kept_char c = true) (safe_filename text).
Proof.
  rewrite safe_filename_unfold. unfold sanitize_spec.
  set (replaced := map _ (nfkd text)).
  set (trimmed := strip_by is_underscore (collapse_underscores replaced)).
  assert (Forall (fun c => kept_char c = true) replaced) as Hrep.
  { apply Forall_map, Forall_forall. intros c _. cbn beta.
    destruct (kept_char c) eqn:Hc; [exact Hc | exact kept_underscore]. }
  assert (Forall (fun c => kept_char c = true) trimmed) as Htrim.
  { apply Forall_forall. intros c Hc.
    apply (proj1 (Forall_forall _ _) Hrep).
    apply collapse_subseteq.
    now apply (ExtractorFacts.strip_by_subseteq is_underscore _ c). }
  apply Forall_take.
  destruct (bool_decide (trimmed = [])); [|exact Htrim].
  apply Forall_forall. intros c Hc.
  rewrite kept_char_ascii.
  - revert c Hc. apply Forall_forall. vm_compute. repeat constructor.
  - revert c Hc. apply Forall_forall. vm_compute. repeat constructor.
Qed.

Lemma safe_filename_no_slash (text : str) : slash ∉ safe_filename text.
Proof.
  intros Hin.
  apply (proj1 (Forall_forall _ _) (safe_filename_kept text)) in Hin.
  rewrite kept_slash in Hin. discriminate.
Qed.

(** X1.  The result of [safe_filename] consists of word characters,
    hyphens and periods only; in particular it holds no path separator.
    It never starts with an underscore and never has two underscores in
    a row. *)
Theorem safe_filename_shape (text : str) :
  Forall (fun c => kept_char c = true) (safe_filename text) /\
  (slash ∉ safe_filename text) /\
  (forall c rest, safe_filename text = c :: rest -> c <> underscore) /\
  no_double (safe_filename text) = true.
Proof.
  split; [apply safe_filename_kept|]. split; [apply safe_filename_no_slash|].
  rewrite safe_filename_unfold. unfold sanitize_spec.
  set (replaced := map _ (nfkd text)).
  set (trimmed := strip_by is_underscore (collapse_underscores replaced)).
  set (named := if bool_decide (trimmed = []) then u "untitled" else trimmed).
  assert (no_double named = true) as Hdouble.
  { unfold named. destruct (bool_decide (trimmed = [])); [reflexivity|].
    destruct (strip_by_infix is_underscore (collapse_underscores replaced))
      as (a & b & Hab). fold trimmed in Hab.
    pose proof (no_double_collapse replaced) as Hc. rewrite Hab in Hc.
    now apply no_double_app_r, no_double_app_l in Hc. }
  assert (forall c rest, named = c :: rest -> c <> underscore) as Hhead.
  { unfold named. intros c rest. case_bool_decide as Ht.
    - intros [= <- _]. discriminate.
    - intros Heq. apply strip_by_head in Heq. intros ->. discriminate. }
  split.
  - intros c rest Heq. destruct named as [|x l]; [discriminate|].
    injection Heq as <- _. now apply (Hhead x l).
  - rewrite <- (take_drop 100 named) in Hdouble.
    now apply no_double_app_l in Hdouble.
Qed.

Lemma hex_no_slash (s : str) :
  Forall (fun c => is_hex c = true) s -> slash ∉ s.
Proof.
  intros Hs Hin. apply (proj1 (Forall_forall _ _) Hs) in Hin. discriminate.
Qed.

Lemma not_elem_of_app3 (a b c : str) :
  slash ∉ a -> slash ∉ b -> slash ∉ c -> slash ∉ (a ++ b ++ c).
Proof.
  intros Ha Hb Hc Hin.
  apply elem_of_app in Hin as [Hin|Hin]; [tauto|].
  apply elem_of_app in Hin as [Hin|Hin]; tauto.
Qed.

Lemma underscore_no_slash : slash ∉ (u "_").
Proof. intros Hin. apply list_elem_of_singleton in Hin. discriminate. Qed.

(** X2.  Entry keys and feed identifiers are single path components:
    they hold no path separator and have at least nine characters, so
    they are neither empty nor [.] nor [..].  A feed identifier made
    without a title is the 40 hexadecimal digits of the hash. *)
Theorem cache_ids_are_path_components (e : entry) (feed_url : str)
    (feed_title : option str) :
  let entry_id := create_entry_cache_key e in
  let feed_id := generate_feed_id feed_url feed_title in
  (slash ∉ entry_id) /\ (9 <= length entry_id)%nat /\
  (slash ∉ feed_id) /\ (9 <= length feed_id)%nat /\
  (nonempty feed_title = None ->
   length feed_id = 40%nat /\ Forall (fun c => is_hex c = true) feed_id).
Proof.
  intros entry_id feed_id.
  assert (forall s, (slash ∉ sha1_8 s) /\ length (sha1_8 s) = 8%nat) as H8.
  { intros s. destruct (sha1_8_shape s) as [L F]. split; [|exact L].
    now apply hex_no_slash. }
  assert (forall s, length (take 8 (sha1_hex s)) = 8%nat) as Hlen8
    by (intros s; apply (H8 s)).
  split; [|split; [|split; [|split]]].
  - unfold entry_id, create_entry_cache_key.
    destruct (nonempty (e !! u "title")) as [t|].
    + apply not_elem_of_app3; [|exact underscore_no_slash|apply H8].
      apply safe_filename_no_slash.
    + intros Hin. apply elem_of_app in Hin as [Hin|Hin].
      * revert Hin. vm_compute. intros Hin.
        repeat (apply elem_of_cons in Hin as [Hin|Hin]; [discriminate|]).
        now apply elem_of_nil in Hin.
      * now apply (proj1 (H8 _)) in Hin.
  - unfold entry_id, create_entry_cache_key.
    destruct (nonempty (e !! u "title")) as [t|];
      rewrite !length_app, Hlen8; cbn [length u]; cbn; lia.
  - unfold feed_id, generate_feed_id.
    destruct (nonempty feed_title) as [t|].
    + apply not_elem_of_app3; [|exact underscore_no_slash|apply H8].
      apply safe_filename_no_slash.
    + apply hex_no_slash, sha1_hex_shape.
  - unfold feed_id, generate_feed_id.
    destruct (nonempty feed_title) as [t|].
    + rewrite !length_app, Hlen8. cbn. lia.
    + rewrite (proj1 (sha1_hex_shape feed_url)). lia.
  - intros Hnone. unfold feed_id, generate_feed_id. rewrite Hnone.
    apply sha1_hex_shape.
Qed.

End Shape.

End IdentityFacts.

(** ** The other operations of the cache manager *)

Module CacheOpsFacts.
Import CacheManager CacheOps StoreFacts.








(** X4.  [clear_entry_summary] returns [True] exactly when a summary file
    existed and its removal did not fail; then the summary is gone and
    the content of the entry is still read as before.  When it returns
    [False] the cache directory is unchanged; in particular clearing a
    summary that does not exist is not an error. *)
Theorem clear_entry_summary_spec (feed_id entry_id : str) (w : World) :
  let r := clear_entry_summary feed_id entry_id w in
  (fst r = true <->
   has_entry_summary feed_id entry_id w = true /\
   faults w OpRemove [feed_id; entry_id; summary_json] = false) /\
  (fst r = true ->
   has_entry_summary feed_id entry_id (snd r) = false /\
   fst (get_entry_summary feed_id entry_id (snd r)) = None /\
   fst (get_cached_content feed_id entry_id (snd r)) =
     fst (get_cached_content feed_id entry_id w)) /\
  (fst r = false -> root (snd r) = root w).
Proof.
  intros r.
  assert (has_entry_summary feed_id entry_id w = false ->
          r = (false, w) ->
          (fst r = true <->
           has_entry_summary feed_id entry_id w = true /\
           faults w OpRemove [feed_id; entry_id; summary_json] = false) /\
          (fst r = true ->
           has_entry_summary feed_id entry_id (snd r) = false /\
           fst (get_entry_summary feed_id entry_id (snd r)) = None /\
           fst (get_cached_content feed_id entry_id (snd r)) =
             fst (get_cached_content feed_id entry_id w)) /\
          (fst r = false -> root (snd r) = root w)) as Habsent.
  { intros Hhas ->. cbn [fst snd]. rewrite Hhas.
    split; [split; [discriminate | intros [[=] _]]|].
    split; [discriminate | reflexivity]. }
  unfold r, clear_entry_summary in *. clear r.
  unfold has_entry_summary, entry_dir, feed_dir in *.
  destruct (root w !! feed_id) as [[|ch]|] eqn:Hroot;
    [now apply Habsent| |now apply Habsent].
  destruct (ch !! entry_id) as [[c|d]|] eqn:Hch;
    [now apply Habsent| |now apply Habsent].
  destruct (summary d) as [s|] eqn:Hsum.
  2:{ apply Habsent; [|reflexivity].
      apply bool_decide_eq_false. intros [x [=]]. }
  clear Habsent.
  assert (bool_decide (is_Some (Some s)) = true) as ->
    by (apply bool_decide_eq_true; eauto).
  destruct (faults w OpRemove _) eqn:Hf; cbn [fst snd].
  { split; [split; [discriminate | intros [_ [=]]]|].
    split; [discriminate | reflexivity]. }
  split; [tauto|]. split; [intros _|discriminate].
  rewrite !get_entry_summary_fst, !get_cached_content_fst.
  pose proof (entry_dir_put feed_id entry_id ch
                {| mtime := now w; fulltext := fulltext d; summary := None |} w)
    as Hput.
  assert (entry_dir w feed_id entry_id = Some d) as Hd
    by (unfold entry_dir, feed_dir; now rewrite Hroot, Hch).
  rewrite Hput, Hd.
  change (faults (put_entry _ _ _ _ w)) with (faults w).
  unfold entry_dir, feed_dir in Hput.
  destruct (root (put_entry feed_id entry_id ch _ w) !! feed_id)
    as [[|ch']|]; try discriminate.
  destruct (ch' !! entry_id) as [[c'|d']|]; try discriminate.
  injection Hput as ->. cbn [summary fulltext].
  split; [|split; [|reflexivity]].
  - apply bool_decide_eq_false. intros [x [=]].
  - now destruct (faults w OpRead _).
Qed.

Lemma clear_entry_summary_spec_witness :
  let feed := u "Old_Feed_0a1b2c3d" in
  let entry := u "Old_Entry_c1b3a0f2" in
  let r := clear_entry_summary feed entry sweep_world in
  fst r = true /\
  has_entry_summary feed entry (snd r) = false /\
  fst (get_cached_content feed entry (snd r)) = Some (u "Old content").
Proof.
  intros feed entry r.
  destruct (clear_entry_summary_spec feed entry sweep_world)
    as (Hiff & Hgone & _). fold r in Hiff, Hgone.
  assert (fst r = true) as Hr.
  { apply Hiff. split; vm_compute; reflexivity. }
  destruct (Hgone Hr) as (Hhas & _ & Hcontent).
  split; [exact Hr|]. split; [exact Hhas|].
  rewrite Hcontent. vm_compute. reflexivity.
Defined.

(** The listing holds a directory called [name]. *)
Definition lists_dir (items : list (str * RootChild)) (name : str) : bool :=
  existsb (fun item =>
             bool_decide (fst item = name) &&
             match snd item with RFeed _ => true | RFile => false end) items.

Lemma lists_dir_spec (items : list (str * RootChild)) (name : str) :
  lists_dir items name = true <-> exists ch, (name, RFeed ch) ∈ items.
Proof.
  unfold lists_dir. rewrite existsb_exists. split.
  - intros ([n c] & Hin & Hc). apply andb_true_iff in Hc as [Hn Hc].
    apply bool_decide_eq_true in Hn. cbn in Hn, Hc. subst n.
    destruct c as [|ch]; [discriminate|]. exists ch. now apply list_elem_of_In.
  - intros [ch Hin]. exists (name, RFeed ch). split.
    + now apply list_elem_of_In.
    + cbn. now rewrite bool_decide_eq_true_2.
Qed.

Lemma rmtree_all_spec (items : list (str * RootChild)) :
  forall w : World,
    (forall name ch, (name, RFeed ch) ∈ items ->
                     faults w OpRemove [name] = false) ->
    exists w',
      rmtree_all items w = (Done tt, w') /\
      faults w' = faults w /\ now w' = now w /\
      (forall name,
          root w' !! name =
          if lists_dir items name then None else root w !! name).
Proof.
  induction items as [|[name c] items IH]; intros w Hok.
  - exists w. repeat split.
  - destruct c as [|ch].
    + destruct (IH w) as (w' & Heq & Hf & Hn & Hroot).
      { intros n ch Hin. apply (Hok n ch). now right. }
      exists w'. cbn [rmtree_all]. split; [exact Heq|].
      split; [exact Hf|]. split; [exact Hn|].
      intros n. rewrite Hroot. unfold lists_dir. cbn [existsb fst snd].
      now rewrite andb_false_r.
    + cbn [rmtree_all]. rewrite (Hok name ch) by left.
      destruct (IH (with_root (delete name (root w)) w))
        as (w' & Heq & Hf & Hn & Hroot).
      { intros n ch' Hin. apply (Hok n ch'). now right. }
      exists w'. split; [exact Heq|]. split; [exact Hf|]. split; [exact Hn|].
      intros n. rewrite Hroot. unfold lists_dir. cbn [existsb fst snd root with_root].
      rewrite andb_true_r. fold (lists_dir items n).
      destruct (lists_dir items n); [now rewrite orb_true_r|].
      rewrite orb_false_r. case_bool_decide as Hname.
      * subst n. apply lookup_delete_eq.
      * now apply lookup_delete_ne.
Qed.

Lemma clear_all_cache_done (w : World) :
  (forall name ch, root w !! name = Some (RFeed ch) ->
                   faults w OpRemove [name] = false) ->
  exists w',
    clear_all_cache w = (Done tt, w') /\
    faults w' = faults w /\ now w' = now w /\
    (forall name,
        root w' !! name =
        match root w !! name with
        | Some RFile => Some RFile
        | _ => None
        end) /\
    (forall feed_id entry_id, entry_dir w' feed_id entry_id = None).
Proof.
  intros Hok. unfold clear_all_cache.
  destruct (rmtree_all_spec (map_to_list (root w)) w)
    as (w' & Heq & Hf & Hn & Hlook).
  { intros name ch Hin. apply (Hok name ch).
    now apply elem_of_map_to_list in Hin. }
  assert (forall name,
             root w' !! name =
             match root w !! name with
             | Some RFile => Some RFile
             | _ => None
             end) as Hroot.
  { intros name. rewrite Hlook.
    destruct (lists_dir (map_to_list (root w)) name) eqn:Hl.
    - apply lists_dir_spec in Hl as [ch Hin].
      apply elem_of_map_to_list in Hin. now rewrite Hin.
    - destruct (root w !! name) as [[|ch]|] eqn:Hname; try reflexivity.
      assert (lists_dir (map_to_list (root w)) name = true) as Ht.
      { apply lists_dir_spec. exists ch. now apply elem_of_map_to_list. }
      congruence. }
  exists w'. split; [exact Heq|]. split; [exact Hf|]. split; [exact Hn|].
  split; [exact Hroot|].
  intros feed_id entry_id. unfold entry_dir, feed_dir. rewrite Hroot.
  now destruct (root w !! feed_id) as [[|ch]|].
Qed.

(** X5.  When no removal fails, [clear_all_cache] removes every feed
    directory and keeps the plain files of the cache root, so that no
    entry directory is left; [clear_feed_cache] removes the one feed
    directory and leaves every other one alone, and does nothing for a
    feed that is not cached. *)
Theorem clear_cache_spec (w : World) :
  ((forall name ch, root w !! name = Some (RFeed ch) ->
                    faults w OpRemove [name] = false) ->
   exists w',
     clear_all_cache w = (Done tt, w') /\
     (forall name,
         root w' !! name =
         match root w !! name with
         | Some RFile => Some RFile
         | _ => None
         end) /\
     (forall feed_id entry_id, entry_dir w' feed_id entry_id = None)) /\
  (forall feed_id,
      match root w !! feed_id with
      | None => clear_feed_cache feed_id w = (Done tt, w)
      | Some RFile => fst (clear_feed_cache feed_id w) = Raised NotADirectoryError
      | Some (RFeed _) =>
          faults w OpRemove [feed_id] = false ->
          fst (clear_feed_cache feed_id w) = Done tt /\
          (forall entry_id,
              entry_dir (snd (clear_feed_cache feed_id w)) feed_id entry_id =
              None) /\
          (forall f', f' <> feed_id ->
                      root (snd (clear_feed_cache feed_id w)) !! f' =
                      root w !! f')
      end).
Proof.
  split.
  - intros Hok.
    destruct (clear_all_cache_done w Hok) as (w' & Heq & _ & _ & Hroot & Hnone).
    now exists w'.
  - intros feed_id. unfold clear_feed_cache.
    destruct (root w !! feed_id) as [[|ch]|]; try reflexivity.
    intros ->. cbn [fst snd]. split; [reflexivity|]. split.
    + intros entry_id. unfold entry_dir, feed_dir. cbn [root with_root].
      now rewrite lookup_delete_eq.
    + intros f' Hne. cbn [root with_root]. now apply lookup_delete_ne.
Qed.

Lemma clear_cache_spec_witness :
  fst (clear_all_cache sweep_world) = Done tt /\
  (forall feed_id entry_id,
      entry_dir (snd (clear_all_cache sweep_world)) feed_id entry_id = None).
Proof.
  destruct (proj1 (clear_cache_spec sweep_world)) as (w' & Heq & _ & Hnone).
  { intros name ch _. reflexivity. }
  rewrite Heq. split; [reflexivity | exact Hnone].
Defined.

Lemma sweep_child_stable (w : World) (cutoff : Q) (feed_id name : str)
    (c c' : FeedChild) :
  sweep_child w cutoff feed_id name c = Some c' ->
  c' = c /\ sweep_child w cutoff feed_id name c' = Some c'.
Proof.
  unfold sweep_child. destruct c as [j|d]; [now intros [= <-]|].
  destruct (Qlt_le_dec (mtime d) cutoff) as [Hlt|Hle].
  - destruct (faults w OpRemove _) eqn:Hf; [|discriminate].
    intros [= <-]. split; [reflexivity|].
    destruct (Qlt_le_dec (mtime d) cutoff); reflexivity.
  - intros [= <-]. split; [reflexivity|].
    destruct (Qlt_le_dec (mtime d) cutoff) as [Hlt|_]; [|reflexivity].
    exfalso. exact (Qlt_not_le _ _ Hlt Hle).
Qed.

(** X6.  The sweep is idempotent: a second [clean_old_cache] at the same
    time and with the same retention leaves the cache directory as the
    first one left it. *)
Theorem clean_old_cache_idempotent (retention_days : Q)
    (days_to_keep : option Q) (w : World) :
  root (clean_old_cache retention_days days_to_keep
          (clean_old_cache retention_days days_to_keep w)) =
  root (clean_old_cache retention_days days_to_keep w).
Proof.
  unfold clean_old_cache. cbn [root now faults].
  set (cutoff := (now w - default retention_days days_to_keep * 86400)%Q).
  set (w1 := {| root := map_imap (sweep_root w cutoff) (root w); now := now w;
                today := today w; faults := faults w;
                log := log w ++ sweep_errors w cutoff;
                upstream := upstream w; calls := calls w |}).
  apply map_eq. intros feed_id.
  rewrite !map_lookup_imap.
  destruct (root w !! feed_id) as [[|ch]|]; [reflexivity| |reflexivity].
  cbn [mbind option_bind sweep_root]. do 2 f_equal.
  apply map_eq. intros name. rewrite !map_lookup_imap.
  destruct (ch !! name) as [c|]; [|reflexivity]. cbn [mbind option_bind].
  change (sweep_child w1) with (sweep_child w).
  destruct (sweep_child w cutoff feed_id name c) as [c'|] eqn:Hc; [|reflexivity].
  cbn [mbind option_bind]. now apply sweep_child_stable in Hc as [_ ->].
Qed.



(** The same world at another time. *)
Definition at_time (t : Q) (w : World) : World :=
  {| root := root w; now := t; today := today w; faults := faults w;
     log := log w; upstream := upstream w; calls := calls w |}.

Lemma feed_record_shape (feed_data cache_data : json) (t : Q) :
  feed_record feed_data t = Ok cache_data ->
  exists title entries,
    cache_data = JObj [(u "timestamp", JNum t); (u "feed_title", title);
                       (u "entries", entries)].
Proof.
  unfold feed_record.
  destruct (py_get feed_data "feed" (JObj [])) as [feed|]; [|discriminate].
  cbn [mbind res_bind].
  destruct (py_get feed "title" (JStr (u "Unknown Feed"))) as [title|];
    [|discriminate].
  cbn [mbind res_bind].
  destruct (py_get feed_data "entries" (JArr [])) as [entries|]; [|discriminate].
  cbn [mbind res_bind]. intros [= <-]. now exists title, entries.
Qed.

Lemma cache_feed_success (feed_id : str) (feed_data cache_data : json)
    (w w1 : World) :
  cache_feed feed_id feed_data w = (Done cache_data, w1) ->
  feed_record feed_data (now w) = Ok cache_data /\
  faults w1 = faults w /\
  exists ch, root w1 !! feed_id = Some (RFeed ch) /\
             ch !! rawfeed_json = Some (FFile cache_data).
Proof.
  unfold cache_feed.
  destruct (feed_record feed_data (now w)) as [data|]; [|discriminate].
  assert (forall ch,
             match ch !! rawfeed_json with
             | Some (FEntry _) =>
                 (Raised IsADirectoryError,
                  with_root (<[feed_id := RFeed ch]> (root w)) w)
             | _ =>
                 if faults w OpWrite [feed_id; rawfeed_json] then
                   (Raised OSError,
                    with_root (<[feed_id := RFeed ch]> (root w)) w)
                 else
                   (Done data,
                    with_root
                      (<[feed_id := RFeed (<[rawfeed_json := FFile data]> ch)]>
                         (root w)) w)
             end = (Done cache_data, w1) ->
             Ok data = Ok cache_data /\ faults w1 = faults w /\
             exists ch', root w1 !! feed_id = Some (RFeed ch') /\
                         ch' !! rawfeed_json = Some (FFile cache_data)) as Hwrite.
  { intros ch Heq.
    assert ((Done data : outcome json,
             with_root
               (<[feed_id := RFeed (<[rawfeed_json := FFile data]> ch)]>
                  (root w)) w) = (Done cache_data, w1)) as [= <- <-].
    { destruct (ch !! rawfeed_json) as [[c|d]|]; try discriminate;
        destruct (faults w OpWrite _); try discriminate; exact Heq. }
    split; [reflexivity|]. split; [reflexivity|].
    eexists. cbn [root with_root]. rewrite lookup_insert_eq.
    split; [reflexivity|]. apply lookup_insert_eq. }
  destruct (root w !! feed_id) as [[|ch]|]; [discriminate| |]; apply Hwrite.
Qed.

(** X8.  A snapshot stored by [cache_feed] carries the time of the write
    as its timestamp.  Read at time [t], it is returned while
    [t - timestamp] does not exceed [max_age_hours * 3600] seconds, and
    the read returns absent once it does. *)
Theorem cache_feed_freshness (feed_id : str) (feed_data cache_data : json)
    (w w1 : World) (max_age_hours t : Q) :
  cache_feed feed_id feed_data w = (Done cache_data, w1) ->
  faults w OpRead [feed_id; rawfeed_json] = false ->
  py_get cache_data "timestamp" JNull = Ok (JNum (now w)) /\
  ((t - now w <= max_age_hours * 3600)%Q ->
   get_cached_feed feed_id max_age_hours (at_time t w1) =
     (Ok (Some cache_data), at_time t w1)) /\
  ((max_age_hours * 3600 < t - now w)%Q ->
   get_cached_feed feed_id max_age_hours (at_time t w1) =
     (Ok None, at_time t w1)).
Proof.
  intros Hcache Hread.
  destruct (cache_feed_success _ _ _ _ _ Hcache)
    as (Hrec & Hfaults & ch & Hroot & Hraw).
  destruct (feed_record_shape _ _ _ Hrec) as (title & entries & ->).
  assert (forall dflt,
             py_get (JObj [(u "timestamp", JNum (now w)); (u "feed_title", title);
                           (u "entries", entries)]) "timestamp" dflt =
             Ok (JNum (now w))) as Hts.
  { intros dflt. cbn [py_get dict_get].
    now rewrite PipelineFacts.str_eqb_refl. }
  split; [apply Hts|].
  unfold get_cached_feed. cbn [root faults now at_time].
  rewrite Hroot, Hraw, Hfaults, Hread, Hts. cbn [as_number].
  split; intros Hcmp.
  - destruct (Qlt_le_dec _ _) as [Hlt|_]; [|reflexivity].
    exfalso. exact (Qlt_not_le _ _ Hlt Hcmp).
  - destruct (Qlt_le_dec _ _) as [_|Hle]; [reflexivity|].
    exfalso. exact (Qlt_not_le _ _ Hcmp Hle).
Qed.

Definition parsed_feed : json :=
  JObj [(u "feed", JObj [(u "title", JStr (u "Example Feed"))]);
        (u "entries", JArr [])].

Lemma cache_feed_freshness_witness :
  let feed := u "Example_Feed_b714320b" in
  let stored :=
    JObj [(u "timestamp", JNum 200100);
          (u "feed_title", JStr (u "Example Feed")); (u "entries", JArr [])] in
  let w1 := snd (cache_feed feed parsed_feed sweep_world) in
  fst (get_cached_feed feed 1 (at_time 203000 w1)) = Ok (Some stored) /\
  fst (get_cached_feed feed 1 (at_time 204000 w1)) = Ok None.
Proof.
  intros feed stored w1.
  assert (cache_feed feed parsed_feed sweep_world = (Done stored, w1)) as Hc
    by (apply injective_projections; [vm_compute; reflexivity | reflexivity]).
  destruct (cache_feed_freshness feed parsed_feed stored sweep_world w1
              1 203000 Hc eq_refl) as (_ & Hfresh & _).
  destruct (cache_feed_freshness feed parsed_feed stored sweep_world w1
              1 204000 Hc eq_refl) as (_ & _ & Hstale).
  rewrite Hfresh, Hstale.
  - split; reflexivity.
  - vm_compute. reflexivity.
  - vm_compute. discriminate.
Defined.

End CacheOpsFacts.

(** ** More on the pipeline *)

Module PipelineMore.
Import CacheManager AIProcessor StoreFacts ExtractorFacts PipelineFacts.

Section More.
Context `{UnicodeDB} `{PyLib} (config : Config).









Lemma contains_app_l (needle prefix rest : str) :
  contains needle prefix = true -> needle <> [] ->
  contains needle (prefix ++ rest) = true.
Proof.
  assert (forall p s, prefix_at p s = true -> prefix_at p (s ++ rest) = true)
    as Hpre.
  { induction p as [|x p IHp]; intros s; [reflexivity|].
    destruct s as [|y s]; [discriminate|]. cbn [app prefix_at].
    intros Hxy. apply andb_true_iff in Hxy as [-> Hp]. now rewrite IHp. }
  assert (forall c s, contains needle (c :: s) =
                      prefix_at needle (c :: s) || contains needle s) as Hcons
    by reflexivity.
  intros Hc Hne. induction prefix as [|c prefix IH].
  - destruct needle; [congruence | discriminate].
  - change ((c :: prefix) ++ rest) with (c :: (prefix ++ rest)).
    rewrite Hcons in Hc |- *. apply orb_true_iff in Hc as [Hc|Hc].
    + change (c :: (prefix ++ rest)) with ((c :: prefix) ++ rest).
      now rewrite (Hpre needle (c :: prefix) Hc).
    + rewrite IH by exact Hc. apply orb_true_r.
Qed.

(** X11.  The fallback record is an error summary and joins the digest
    batch: its summary text holds "could not be extracted", so a reply
    that echoes it is retried, and its importance 5 meets the threshold. *)
Theorem fallback_is_surfaced (e : entry) (day : str) :
  exists kv summary_text,
    fallback_of e day = JObj kv /\
    dict_get (u "summary") kv = Some summary_text /\
    is_error_summary summary_text = Ok true /\
    qualifies (fallback_of e day) = Ok true.
Proof.
  eexists. eexists. split; [reflexivity|]. split; [reflexivity|]. split.
  - unfold is_error_summary. cbn [py_in mbind res_bind].
    rewrite (contains_app_l (u "could not be extracted")
               (u "Summary could not be extracted for: ")); [reflexivity| |];
      [vm_compute; reflexivity | discriminate].
  - reflexivity.
Qed.

(** A summary that joins no batch and raises nothing. *)
Definition harmless (e : entry) (w : World) : Prop :=
  match fst (digest_summary e w) with
  | Some s => truthy s = false \/ exists b, qualifies s = Ok b
  | None => True
  end.

Lemma collect_raises (x : exn) (w0 : World) :
  forall (pre : list entry) (e : entry) (post : list entry) (s : json)
         (acc : list json) (w : World),
    same_store w0 w ->
    (forall e', e' ∈ pre -> harmless e' w0) ->
    fst (digest_summary e w0) = Some s -> truthy s = true ->
    qualifies s = Raise x ->
    fst (collect (pre ++ e :: post) acc w) = Raise x.
Proof.
  induction pre as [|e0 pre IH]; intros e post s acc w Hs Hpre Hsum Ht Hq.
  - cbn [app collect]. unfold digest_summary in *.
    rewrite <- (get_entry_summary_same_store w0 w) in Hsum by exact Hs.
    destruct (get_entry_summary _ _ w) as [o w1]. cbn [fst] in Hsum. subst o.
    now rewrite Ht, Hq.
  - cbn [app collect].
    pose proof (Hpre e0 ltac:(left)) as He0. unfold harmless in He0.
    unfold digest_summary in He0 |- *.
    rewrite <- (get_entry_summary_same_store w0 w) in He0 by exact Hs.
    pose proof (get_entry_summary_world (entry_get e0 "feed_id" (u ""))
                  (create_entry_cache_key e0) w) as (Hs1 & _ & _).
    destruct (get_entry_summary _ _ w) as [o w1]. cbn [fst snd] in He0, Hs1.
    assert (forall acc', fst (collect (pre ++ e :: post) acc' w1) = Raise x)
      as Hrec.
    { intros acc'. apply (IH e post s acc' w1); try assumption.
      - now apply (same_store_trans w0 w w1).
      - intros e' He'. apply Hpre. now right. }
    destruct o as [s0|]; [|apply Hrec].
    destruct He0 as [-> | [b Hb]]; [apply Hrec|].
    destruct (truthy s0); [|apply Hrec]. rewrite Hb.
    destruct b; apply Hrec.
Qed.

(** X12.  A cached summary whose importance is neither a number, a
    boolean nor a string (a JSON null, for one) makes the comparison
    with the threshold raise: [generate_digest] then raises [TypeError]
    without any request, whatever the other entries are. *)
Theorem generate_digest_type_error (date_str : str) (pre post : list entry)
    (e : entry) (w : World) (kv : list (str * json)) (importance : json) :
  (forall e', e' ∈ pre -> harmless e' w) ->
  fst (digest_summary e w) = Some (JObj kv) ->
  dict_get (u "importance") kv = Some importance ->
  match importance with
  | JNull | JArr _ | JObj _ => True
  | _ => False
  end ->
  let res := generate_digest config date_str (pre ++ e :: post) w in
  fst res = Raise TypeError /\ calls (snd res) = calls w.
Proof.
  intros Hpre Hsum Himp Hkind res.
  assert (qualifies (JObj kv) = Raise TypeError) as Hq.
  { unfold qualifies. cbn [py_get]. rewrite Himp. cbn [default mbind res_bind].
    destruct importance; try contradiction; reflexivity. }
  assert (truthy (JObj kv) = true) as Ht
    by (destruct kv; [discriminate | reflexivity]).
  pose proof (collect_raises TypeError w pre e post (JObj kv) [] w
                (same_store_refl w) Hpre Hsum Ht Hq) as Hfst.
  pose proof (collect_world (pre ++ e :: post) [] w) as (_ & Hc).
  unfold res, generate_digest.
  destruct (collect (pre ++ e :: post) [] w) as [r w1].
  cbn [fst snd] in Hfst, Hc. subst r. split; [reflexivity | exact Hc].
Qed.


End More.

Definition digest_date : str := u "20230101".




Definition unrated_record : json :=
  JObj [(u "importance", JNull); (u "summary", JStr (u "No rating given."))].

Lemma generate_digest_type_error_witness :
  let w := pipeline_world (Some (with_both unrated_record)) (always malformed) in
  fst (generate_digest test_config digest_date [test_entry] w) =
    Raise TypeError /\
  calls (snd (generate_digest test_config digest_date [test_entry] w)) = 0%nat.
Proof.
  intros w.
  apply (generate_digest_type_error test_config digest_date [] [] test_entry w
           (fields unrated_record) JNull).
  - intros e' He'. now apply elem_of_nil in He'.
  - vm_compute. reflexivity.
  - vm_compute. reflexivity.
  - exact I.
Defined.

End PipelineMore.

(** ** The text helpers *)

Module TextHelpersFacts.
Import TextHelpers.

Lemma rfind_None (c : N) (s : str) : rfind c s = None -> c ∉ s.
Proof.
  induction s as [|x s IH]; intros Hr; [apply not_elem_of_nil|].
  cbn [rfind] in Hr. destruct (rfind c s); [discriminate|].
  destruct (N.eqb_spec x c) as [|Hx]; [discriminate|].
  apply not_elem_of_cons. split; [congruence|]. now apply IH.
Qed.

Lemma rfind_Some (c : N) (s : str) (i : nat) :
  rfind c s = Some i -> s !! i = Some c /\ c ∉ drop (S i) s.
Proof.
  revert i. induction s as [|x s IH]; intros i Hr; [discriminate|].
  cbn [rfind] in Hr. destruct (rfind c s) as [j|] eqn:Hj.
  - injection Hr as <-. destruct (IH j eq_refl) as [Hat Hno]. now split.
  - destruct (N.eqb_spec x c) as [->|]; [|discriminate].
    injection Hr as <-. split; [reflexivity|]. now apply rfind_None.
Qed.

(** X14.  A text of at most [max_length] characters is returned as it is.  A
    longer one is cut and marked: the result is a prefix of the text of at
    most [max_length] characters followed by the 20 characters of the mark;
    the cut is at the last space among the first [max_length] characters,
    which is dropped, and at [max_length] when there is no space there. *)
Theorem truncate_text_spec (text : str) (max_length : Z) :
  text <> [] -> (0 <= max_length)%Z ->
  let limit := Z.to_nat max_length in
  let result := truncate_text (Some text) max_length in
  ((length text <= limit)%nat -> result = text) /\
  ((limit < length text)%nat ->
   exists n : nat,
     result = take n text ++ truncation_mark /\
     length result = (n + 20)%nat /\
     ((n = limit /\ space ∉ take limit text) \/
      ((n < limit)%nat /\ text !! n = Some space /\
       space ∉ drop (S n) (take limit text)))).
Proof.
  intros Hne Hpos limit result. subst result. unfold truncate_text.
  assert (nonempty (Some text) = Some text) as ->
    by (destruct text; [congruence|reflexivity]).
  split.
  - intros Hshort.
    destruct (Z.leb_spec (Z.of_nat (length text)) max_length) as [_|Hlt];
      [reflexivity|]. subst limit. lia.
  - intros Hlong.
    destruct (Z.leb_spec (Z.of_nat (length text)) max_length) as [Hle|_];
      [subst limit; lia|].
    assert (slice_end (length text) max_length = limit) as ->.
    { unfold slice_end. destruct (Z.ltb_spec max_length 0); [lia|].
      subst limit. lia. }
    destruct (rfind space (take limit text)) as [i|] eqn:Hr.
    + destruct (rfind_Some _ _ _ Hr) as [Hat Hno].
      apply lookup_take_Some in Hat as [Hat Hi].
      exists i. split; [reflexivity|]. split.
      * rewrite length_app, length_take.
        change (length truncation_mark) with 20%nat. lia.
      * right. split; [exact Hi|]. split; [exact Hat|exact Hno].
    + exists limit. split; [reflexivity|]. split.
      * rewrite length_app, length_take.
        change (length truncation_mark) with 20%nat. lia.
      * left. split; [reflexivity|]. now apply rfind_None.
Qed.

Lemma truncate_text_spec_witness :
  truncate_text (Some (u "breaking news today")) 10 =
    u "breaking... [text truncated]" /\
  truncate_text (Some (u "news")) 10 = u "news".
Proof.
  destruct (truncate_text_spec (u "breaking news today") 10) as [_ Hlong];
    [discriminate | lia |].
  destruct (truncate_text_spec (u "news") 10) as [Hshort _];
    [discriminate | lia |].
  split.
  - destruct Hlong as (n & Hres & _ & _); [vm_compute; lia|].
    vm_compute. reflexivity.
  - apply Hshort. vm_compute. lia.
Defined.

Lemma prefix_at_spec (p s : str) :
  prefix_at p s = true <-> exists rest, s = p ++ rest.
Proof.
  revert s. induction p as [|x p IH]; intros s.
  - split; [intros _; now exists s | reflexivity].
  - destruct s as [|y s]; cbn [prefix_at].
    + split; [discriminate | intros [rest Hrest]; discriminate].
    + rewrite andb_true_iff, N.eqb_eq, IH. split.
      * intros [-> [rest ->]]. now exists rest.
      * intros [rest Hrest]. injection Hrest as -> ->. split; [reflexivity|].
        now exists rest.
Qed.

Lemma contains_spec (sub s : str) :
  contains sub s = true <-> exists before after, s = before ++ sub ++ after.
Proof.
  induction s as [|c s IH].
  - cbn [contains]. rewrite orb_false_r, prefix_at_spec. split.
    + intros [rest Hrest]. now exists [], rest.
    + intros (before & after & Hs). symmetry in Hs.
      apply app_eq_nil in Hs as [-> Hs]. apply app_eq_nil in Hs as [-> ->].
      now exists [].
  - cbn [contains]. rewrite orb_true_iff, prefix_at_spec, IH. split.
    + intros [[rest Hrest]|(before & after & ->)].
      * now exists [], rest.
      * now exists (c :: before), after.
    + intros (before & after & Hs). destruct before as [|b before].
      * left. now exists after.
      * right. injection Hs as -> ->. now exists before, after.
Qed.

Lemma id_here_spec (prefix s group : str) :
  id_here prefix s = Some group ->
  length group = 11%nat /\ Forall (fun c => id_char c = true) group /\
  exists after, s = prefix ++ group ++ after.
Proof.
  unfold id_here. destruct (prefix_at prefix s) eqn:Hp; [|discriminate].
  apply prefix_at_spec in Hp as [rest ->].
  rewrite drop_app_length.
  destruct (_ && _) eqn:Hok; [|discriminate]. intros [= <-].
  apply andb_true_iff in Hok as [Hlen Hall]. apply Nat.eqb_eq in Hlen.
  split; [exact Hlen|]. split.
  - apply Forall_forall. intros c Hc. rewrite forallb_forall in Hall.
    apply Hall. now apply list_elem_of_In.
  - exists (drop 11 rest). now rewrite take_drop.
Qed.

Lemma search_id_spec (prefix s group : str) :
  search_id prefix s = Some group ->
  length group = 11%nat /\ Forall (fun c => id_char c = true) group /\
  exists before after, s = before ++ prefix ++ group ++ after.
Proof.
  induction s as [|c s IH]; cbn [search_id];
    destruct (id_here prefix _) as [g|] eqn:Hhere.
  - intros [= <-]. destruct (id_here_spec _ _ _ Hhere) as (L & F & a & Hs).
    split; [exact L|]. split; [exact F|]. now exists [], a.
  - discriminate.
  - intros [= <-]. destruct (id_here_spec _ _ _ Hhere) as (L & F & a & Hs).
    split; [exact L|]. split; [exact F|]. now exists [], a.
  - intros Hs. destruct (IH Hs) as (L & F & b & a & ->).
    split; [exact L|]. split; [exact F|]. now exists (c :: b), a.
Qed.

(** X15.  A video identifier is only ever taken from a text that
    [is_youtube_url] accepts: it is the 11 characters of [[a-zA-Z0-9_-]]
    that follow one of the three address patterns in the URL. *)
Theorem extract_youtube_id_spec (url : option str) (video_id : str) :
  extract_youtube_id url = Some video_id ->
  is_youtube_url url = true /\
  length video_id = 11%nat /\
  Forall (fun c => id_char c = true) video_id /\
  exists (pattern text before after : str),
    url = Some text /\ pattern ∈ youtube_patterns /\
    text = before ++ pattern ++ video_id ++ after.
Proof.
  unfold extract_youtube_id, is_youtube_url.
  destruct url as [[|c text]|]; cbn [nonempty]; [discriminate| |discriminate].
  set (s := c :: text). intros Hx.
  assert (exists pattern, pattern ∈ youtube_patterns /\
                          search_id pattern s = Some video_id)
    as (pattern & Hin & Hfound).
  { destruct (search_id (u "youtube.com/watch?v=") s) eqn:H1.
    - exists (u "youtube.com/watch?v="). split; [|congruence].
      unfold youtube_patterns. set_solver.
    - destruct (search_id (u "youtu.be/") s) eqn:H2.
      + exists (u "youtu.be/"). split; [|congruence].
        unfold youtube_patterns. set_solver.
      + exists (u "youtube.com/shorts/"). split; [|exact Hx].
        unfold youtube_patterns. set_solver. }
  destruct (search_id_spec _ _ _ Hfound) as (L & F & before & after & Hs).
  split; [|split; [exact L|split; [exact F|]]].
  - apply existsb_exists. exists pattern. split.
    + now apply list_elem_of_In.
    + apply contains_spec. exists before, (video_id ++ after). exact Hs.
  - exists pattern, s, before, after. now split.
Qed.

Lemma extract_youtube_id_spec_witness :
  extract_youtube_id (Some (u "https://www.youtube.com/watch?v=dQw4w9WgXcQ")) =
    Some (u "dQw4w9WgXcQ") /\
  is_youtube_url (Some (u "https://www.youtube.com/watch?v=dQw4w9WgXcQ")) =
    true.
Proof.
  assert (extract_youtube_id
            (Some (u "https://www.youtube.com/watch?v=dQw4w9WgXcQ")) =
          Some (u "dQw4w9WgXcQ")) as Hx by (vm_compute; reflexivity).
  split; [exact Hx|].
  exact (proj1 (extract_youtube_id_spec _ _ Hx)).
Defined.

(** ** [clean_html] *)

(** Dropping every [c] whose run from there on is longer than [keep]. *)
Fixpoint trim (c : N) (keep : nat) (s : str) : str :=
  match s with
  | [] => []
  | x :: s' =>
      if (keep <? run_of c s)%nat then trim c keep s' else x :: trim c keep s'
  end.

(** No run of [c] in the text is longer than [m]. *)
Fixpoint runs_le (c : N) (m : nat) (s : str) : Prop :=
  match s with
  | [] => True
  | _ :: s' => (run_of c s <= m)%nat /\ runs_le c m s'
  end.

(** No [<] of the text has a [>] after it. *)
Fixpoint tag_free (s : str) : Prop :=
  match s with
  | [] => True
  | c :: s' => (c = lt_sign -> gt_sign ∉ s') /\ tag_free s'
  end.

Lemma run_of_cons (c x : N) (s : str) :
  run_of c (x :: s) = if x =? c then S (run_of c s) else O.
Proof. reflexivity. Qed.

Lemma run_of_le_length (c : N) (s : str) : (run_of c s <= length s)%nat.
Proof.
  induction s as [|x s IH]; [reflexivity|]. rewrite run_of_cons.
  cbn [length]. destruct (x =? c); lia.
Qed.

Lemma squeeze_from_drop (c : N) (least keep k : nat) (s : str) :
  squeeze_from c least keep k s = squeeze_from c least keep 0 (drop k s).
Proof.
  revert s. induction k as [|k IH]; intros s; [now rewrite drop_0|].
  destruct s as [|x s]; [reflexivity|]. cbn [squeeze_from drop]. apply IH.
Qed.

Lemma squeeze_from_cons (c : N) (least keep : nat) (x : N) (s : str) :
  squeeze_from c least keep 0 (x :: s) =
  if (least <=? run_of c (x :: s))%nat
  then replicate keep c ++ squeeze_from c least keep (run_of c (x :: s) - 1) s
  else x :: squeeze_from c least keep 0 s.
Proof. reflexivity. Qed.

Lemma trim_cons (c : N) (keep : nat) (x : N) (s : str) :
  trim c keep (x :: s) =
  if (keep <? run_of c (x :: s))%nat then trim c keep s
  else x :: trim c keep s.
Proof. reflexivity. Qed.

(** A short run at the head is kept whole. *)
Lemma trim_short_run (c : N) (keep n : nat) (s : str) :
  run_of c s = n -> (n <= keep)%nat ->
  trim c keep s = replicate n c ++ trim c keep (drop n s).
Proof.
  revert s. induction n as [|n IH]; intros s Hrun Hn; [now rewrite drop_0|].
  destruct s as [|x s]; [discriminate|]. rewrite run_of_cons in Hrun.
  destruct (N.eqb_spec x c) as [->|]; [|discriminate].
  injection Hrun as Hrun. rewrite trim_cons, run_of_cons, N.eqb_refl, Hrun.
  destruct (Nat.ltb_spec keep (S n)); [lia|].
  cbn [replicate app drop]. f_equal. apply IH; [exact Hrun|lia].
Qed.

(** A long run at the head is cut down to [keep]. *)
Lemma trim_long_run (c : N) (keep n : nat) (s : str) :
  run_of c s = n -> (keep <= n)%nat ->
  trim c keep s = replicate keep c ++ trim c keep (drop n s).
Proof.
  revert s. induction n as [|n IH]; intros s Hrun Hn.
  - assert (keep = 0%nat) as -> by lia. now rewrite drop_0.
  - destruct (Nat.eq_dec keep (S n)) as [->|Hne].
    { now apply trim_short_run. }
    destruct s as [|x s]; [discriminate|]. rewrite run_of_cons in Hrun.
    destruct (N.eqb_spec x c) as [->|]; [|discriminate].
    injection Hrun as Hrun. rewrite trim_cons, run_of_cons, N.eqb_refl, Hrun.
    destruct (Nat.ltb_spec keep (S n)); [|lia].
    cbn [drop]. apply IH; [exact Hrun|lia].
Qed.

(** The two substitutions of [clean_html] replace a run by one character
    less than the shortest run they match: they are [trim]. *)
Lemma squeeze_trim (c : N) (keep : nat) (s : str) :
  squeeze c (S keep) keep s = trim c keep s.
Proof.
  unfold squeeze.
  assert (forall m s, (length s <= m)%nat ->
            squeeze_from c (S keep) keep 0 s = trim c keep s) as Hall;
    [|now apply (Hall (length s))].
  clear s. induction m as [|m IH]; intros s Hlen.
  { destruct s; [reflexivity|cbn [length] in Hlen; lia]. }
  destruct s as [|x s]; [reflexivity|]. rewrite squeeze_from_cons.
  cbn [length] in Hlen.
  destruct (Nat.leb_spec (S keep) (run_of c (x :: s))) as [Hlong|Hshort].
  - rewrite squeeze_from_drop.
    assert (drop (run_of c (x :: s) - 1) s = drop (run_of c (x :: s)) (x :: s))
      as ->.
    { destruct (run_of c (x :: s)) as [|n]; [lia|].
      cbn [drop]. f_equal. lia. }
    rewrite IH.
    + symmetry. apply trim_long_run; [reflexivity|lia].
    + rewrite length_drop. cbn [length]. lia.
  - rewrite trim_cons. destruct (Nat.ltb_spec keep (run_of c (x :: s))); [lia|].
    f_equal. apply IH. lia.
Qed.

Lemma trim_sublist (c : N) (keep : nat) (s : str) : trim c keep s `sublist_of` s.
Proof.
  induction s as [|x s IH]; [constructor|]. rewrite trim_cons.
  destruct (_ <? _)%nat; now constructor.
Qed.

Lemma run_of_trim (c : N) (keep : nat) (s : str) :
  run_of c (trim c keep s) = Nat.min (run_of c s) keep.
Proof.
  induction s as [|x s IH]; [reflexivity|]. rewrite trim_cons.
  destruct (Nat.ltb_spec keep (run_of c (x :: s))) as [Hlong|Hshort].
  - rewrite IH. rewrite run_of_cons in Hlong |- *.
    destruct (x =? c); lia.
  - rewrite !run_of_cons in *. destruct (x =? c); [|reflexivity].
    rewrite IH. lia.
Qed.

Lemma runs_le_trim (c : N) (keep : nat) (s : str) :
  runs_le c keep (trim c keep s).
Proof.
  induction s as [|x s IH]; [exact I|].
  pose proof (run_of_trim c keep (x :: s)) as Hrun. rewrite trim_cons in *.
  destruct (_ <? _)%nat; [exact IH|]. split; [lia|exact IH].
Qed.

(** Trimming the runs of [c] joins no two runs of another character. *)
Lemma run_of_trim_other (c d : N) (keep : nat) (s : str) :
  d <> c -> (1 <= keep)%nat ->
  (run_of d (trim c keep s) <= run_of d s)%nat.
Proof.
  intros Hdc Hkeep. induction s as [|x s IH]; [reflexivity|].
  rewrite trim_cons.
  destruct (Nat.ltb_spec keep (run_of c (x :: s))) as [Hlong|Hshort].
  - rewrite run_of_cons in Hlong.
    destruct (N.eqb_spec x c) as [->|]; [|lia].
    assert (run_of d s = 0%nat) as Hs.
    { destruct s as [|y s]; [reflexivity|]. rewrite run_of_cons in Hlong |- *.
      destruct (N.eqb_spec y c) as [->|]; [|lia].
      destruct (N.eqb_spec c d); [congruence|reflexivity]. }
    lia.
  - rewrite !run_of_cons. destruct (x =? d); lia.
Qed.

Lemma runs_le_trim_other (c d : N) (keep m : nat) (s : str) :
  d <> c -> (1 <= keep)%nat -> runs_le d m s -> runs_le d m (trim c keep s).
Proof.
  intros Hdc Hkeep. induction s as [|x s IH]; [easy|].
  intros [Hrun Hrest].
  pose proof (run_of_trim_other c d keep (x :: s) Hdc Hkeep) as Hle.
  rewrite trim_cons in *.
  destruct (_ <? _)%nat; [now apply IH|]. split; [lia|now apply IH].
Qed.

Lemma run_of_replicate (c : N) (n : nat) (s : str) :
  (n <= run_of c (replicate n c ++ s))%nat.
Proof.
  induction n as [|n IH]; [lia|]. cbn [replicate app].
  rewrite run_of_cons, N.eqb_refl. lia.
Qed.

Lemma runs_le_infix (c : N) (m : nat) (s before after : str) :
  runs_le c m s -> s <> before ++ replicate (S m) c ++ after.
Proof.
  revert s. induction before as [|x before IH]; intros s Hruns ->.
  - pose proof (run_of_replicate c (S m) after) as Hrun.
    cbn [replicate app] in Hruns, Hrun. destruct Hruns as [Hle _]. lia.
  - destruct Hruns as [_ Hruns]. now apply (IH _ Hruns).
Qed.

Lemma strip_by_last (p : N -> bool) (s t : str) (c : N) :
  strip_by p s = t ++ [c] -> p c = false.
Proof.
  unfold strip_by, rstrip_by. intros Hs.
  apply (f_equal (@rev N)) in Hs.
  rewrite rev_involutive, rev_app_distr in Hs.
  exact (IdentityFacts.lstrip_by_head p _ c _ Hs).
Qed.

Lemma runs_le_strip (c : N) (m : nat) (s : str) :
  runs_le c m s -> contains (replicate (S m) c) (strip s) = false.
Proof.
  intros Hruns. apply not_true_is_false. intros Hc.
  apply contains_spec in Hc as (before & after & Hc).
  destruct (IdentityFacts.strip_by_infix isspace s) as (a & b & Hinfix).
  apply (runs_le_infix c m s (a ++ before) (after ++ b) Hruns).
  rewrite Hinfix at 1. fold (strip s). rewrite Hc.
  rewrite <- !app_assoc. reflexivity.
Qed.

(** X16.  Whatever the markup, the text [clean_html] returns is normalised:
    it neither starts nor ends with white space, and it holds no two
    consecutive spaces and no three consecutive line feeds. *)
Theorem clean_html_whitespace (html_text : option str) :
  let result := clean_html html_text in
  (forall c rest, result = c :: rest -> isspace c = false) /\
  (forall rest c, result = rest ++ [c] -> isspace c = false) /\
  contains [space; space] result = false /\
  contains [newline; newline; newline] result = false.
Proof.
  unfold clean_html. destruct (nonempty html_text) as [text|].
  2:{ cbn zeta. split; [discriminate|]. split; [|split; reflexivity].
      intros [|? ?] ? ?; discriminate. }
  cbn zeta. rewrite !squeeze_trim.
  set (decoded := replace (u "&#39;") _ _).
  set (squeezed := trim space 1 (trim newline 2 decoded)).
  assert (runs_le space 1 squeezed) as Hsp by apply runs_le_trim.
  assert (runs_le newline 2 squeezed) as Hnl.
  { apply runs_le_trim_other; [discriminate|lia|apply runs_le_trim]. }
  split; [intros c rest; apply IdentityFacts.strip_by_head|].
  split; [intros rest c; apply strip_by_last|].
  split.
  - exact (runs_le_strip space 1 squeezed Hsp).
  - exact (runs_le_strip newline 2 squeezed Hnl).
Qed.

Lemma find_absent (c : N) (s : str) : find c s = None -> c ∉ s.
Proof.
  induction s as [|x s IH]; intros Hf; [apply not_elem_of_nil|].
  cbn [find] in Hf. destruct (N.eqb_spec x c) as [|Hx]; [discriminate|].
  destruct (find c s); [discriminate|].
  apply not_elem_of_cons. split; [congruence|]. now apply IH.
Qed.

Lemma sub_tags_sublist (k : nat) (s : str) : sub_tags_from k s `sublist_of` s.
Proof.
  revert k. induction s as [|c s IH]; intros k; [constructor|].
  cbn [sub_tags_from]. destruct k as [|k]; [|now constructor].
  destruct (c =? lt_sign); [|now constructor].
  destruct (find gt_sign s); now constructor.
Qed.

Lemma sub_tags_tag_free (k : nat) (s : str) : tag_free (sub_tags_from k s).
Proof.
  revert k. induction s as [|c s IH]; intros k; [exact I|].
  cbn [sub_tags_from]. destruct k as [|k]; [|apply IH].
  destruct (N.eqb_spec c lt_sign) as [->|Hc].
  - destruct (find gt_sign s) eqn:Hf; [apply IH|].
    split; [|apply IH]. intros _ Hin. apply (find_absent _ _ Hf).
    exact (elem_of_sublist _ _ _ Hin (sub_tags_sublist 0 s)).
  - split; [congruence|apply IH].
Qed.

Lemma tag_free_sublist (t s : str) :
  t `sublist_of` s -> tag_free s -> tag_free t.
Proof.
  induction 1 as [|x t s Hts IH|x t s Hts IH]; [easy| |].
  - intros [Hx Hs]. split; [|now apply IH].
    intros Hlt Hin. apply (Hx Hlt). exact (elem_of_sublist _ _ _ Hin Hts).
  - intros [_ Hs]. now apply IH.
Qed.

Lemma tag_free_split (s before after : str) :
  tag_free s -> s = before ++ lt_sign :: after -> gt_sign ∉ after.
Proof.
  revert s. induction before as [|x before IH]; intros s Hs ->.
  - now apply Hs.
  - destruct Hs as [_ Hs]. now apply (IH _ Hs).
Qed.

(** The characters of [s.replace(old, new)] come from [s] and from [new]. *)
Lemma replace_from_absent (c : N) (old new : str) (k : nat) (s : str) :
  c ∉ new -> c ∉ s -> c ∉ replace_from k old new s.
Proof.
  intros Hnew. revert k. induction s as [|x s IH]; intros k Hs; [exact Hs|].
  apply not_elem_of_cons in Hs as [Hx Hs]. cbn [replace_from].
  destruct k as [|k]; [|now apply IH].
  destruct (prefix_at old (x :: s)).
  - apply not_elem_of_app. split; [exact Hnew|now apply IH].
  - apply not_elem_of_cons. split; [exact Hx|now apply IH].
Qed.

Lemma replace_absent_keeps (c : N) (old new s : str) :
  c ∉ new -> c ∉ s -> c ∉ replace old new s.
Proof. apply replace_from_absent. Qed.

(** Nothing is replaced in a text that lacks the first character of [old]. *)
Lemma replace_absent_id (c : N) (old new s : str) :
  head old = Some c -> c ∉ s -> replace old new s = s.
Proof.
  destruct old as [|c' old]; [discriminate|]. intros [= ->].
  unfold replace. induction s as [|x s IH]; intros Hs; [reflexivity|].
  apply not_elem_of_cons in Hs as [Hx Hs]. cbn [replace_from prefix_at].
  destruct (N.eqb_spec c x) as [->|_]; [congruence|].
  cbn [andb]. f_equal. now apply IH.
Qed.

Lemma strip_sublist (s : str) : strip s `sublist_of` s.
Proof.
  destruct (IdentityFacts.strip_by_infix isspace s) as (a & b & Hs).
  rewrite Hs at 2. apply sublist_inserts_l, sublist_inserts_r. reflexivity.
Qed.

Local Ltac absent := intros Hin; apply list_elem_of_In in Hin;
  vm_compute in Hin; intuition discriminate.

(** X17.  On a text without [&], the result of [clean_html] holds no tag:
    no [<] of it has a [>] anywhere after it. *)
Theorem clean_html_tag_free (text before after : str) :
  ampersand ∉ text ->
  clean_html (Some text) = before ++ lt_sign :: after ->
  gt_sign ∉ after.
Proof.
  intros Hamp. unfold clean_html.
  destruct text as [|c0 text0]; [now destruct before|]. cbn [nonempty].
  set (text := c0 :: text0) in *. cbv zeta.
  set (marked := replace (u "<br />") _ _).
  assert (ampersand ∉ marked) as Hmarked.
  { subst marked. cbn [fold_left block_tags].
    repeat (apply replace_absent_keeps; [absent|]). exact Hamp. }
  assert (ampersand ∉ sub_tags marked) as Hplain.
  { intros Hin. apply Hmarked.
    exact (elem_of_sublist _ _ _ Hin (sub_tags_sublist 0 marked)). }
  rewrite (replace_absent_id ampersand (u "&nbsp;")),
    (replace_absent_id ampersand (u "&amp;")),
    (replace_absent_id ampersand (u "&lt;")),
    (replace_absent_id ampersand (u "&gt;")),
    (replace_absent_id ampersand (u "&quot;")),
    (replace_absent_id ampersand (u "&#39;"));
    try exact Hplain; try reflexivity.
  rewrite !squeeze_trim. apply tag_free_split.
  eapply tag_free_sublist; [apply strip_sublist|].
  eapply tag_free_sublist; [apply trim_sublist|].
  eapply tag_free_sublist; [apply trim_sublist|].
  apply sub_tags_tag_free.
Qed.

Lemma clean_html_tag_free_witness :
  clean_html (Some (u "<p>Hi <b>you</b></p><br>bye <")) = u "Hi you" ++
    [newline; newline] ++ u "bye <" /\
  gt_sign ∉ u "".
Proof.
  assert (clean_html (Some (u "<p>Hi <b>you</b></p><br>bye <")) =
          (u "Hi you" ++ [newline; newline] ++ u "bye ") ++ lt_sign :: u "")
    as Hrun by (vm_compute; reflexivity).
  assert (ampersand ∉ u "<p>Hi <b>you</b></p><br>bye <") as Hamp by absent.
  split; [vm_compute; reflexivity|].
  exact (clean_html_tag_free _ _ _ Hamp Hrun).
Defined.

End TextHelpersFacts.
